(** * Wasatch.PY: the SPI spectrometer session and its worker loop

    A shallow embedding of [wasatch/SPIDevice.py] and
    [wasatch/WrapperWorker.py].  Python objects become records, attribute
    updates become record updates threaded through a state-and-exception
    monad, and the hardware (SPI bus, ready and trigger lines) is an
    interface whose operations may fail. *)

From stdpp Require Import gmap strings list.
From Stdlib Require Import ZArith.

(** ** Python values, exceptions and outcomes *)

(** The values that travel in a [ControlObject] or sit in a settings
    attribute. *)
Inductive PyVal :=
| VNone
| VBool (b : bool)
| VInt (z : Z)
| VStr (s : string).

#[global] Instance PyVal_eq_dec : EqDecision PyVal.
Proof. solve_decision. Defined.

(** The exceptions the modelled code can meet. *)
Inductive exn :=
| AttributeError
| IndexError
| ValueError
| TypeError
| USBError
| OtherError.

#[global] Instance exn_eq_dec : EqDecision exn.
Proof. solve_decision. Defined.

(** What a call does: it returns, it raises, or it is still spinning in a
    [while] busy-wait when the fuel given to that loop is used up. *)
Inductive outcome (A : Type) :=
| Returned (a : A)
| Raised (e : exn)
| Spinning.
Arguments Returned {A} a.
Arguments Raised {A} e.
Arguments Spinning {A}.

(** ** WrapperWorker.dedupe *)

(** ControlObject: a (setting, value) pair. *)
Record ControlObject := { setting : string; value : PyVal }.

#[global] Instance ControlObject_eq_dec : EqDecision ControlObject.
Proof. solve_decision. Defined.

(** A queue item is a [ControlObject] or the poison pill [None]. *)
Definition item := option ControlObject.

(** [setting = None] for a poison pill, [control_object.setting]
    otherwise. *)
Definition item_setting (control_object : item) : option string :=
  match control_object with
  | None => None
  | Some co => Some (setting co)
  end.

(** The inner loop
    [for co in keep: if co.setting != setting: new_keep.append(co)].
    Reading [co.setting] on a kept [None] raises AttributeError. *)
Fixpoint remove_previous (name : option string) (keep new_keep : list item)
  : outcome (list item) :=
  match keep with
  | [] => Returned new_keep
  | None :: _ => Raised AttributeError
  | Some co :: rest =>
      if decide (Some (setting co) = name)
      then remove_previous name rest new_keep
      else remove_previous name rest (new_keep ++ [Some co])
  end.

(** The [while True] loop of [dedupe]: it runs until [q.empty()], so it is
    a recursion on the queue's content.  The second component is what is
    left in the queue. *)
Fixpoint dedupe_loop (q : list item) (keep : list item)
  : outcome (list item) * list item :=
  match q with
  | [] => (Returned keep, [])
  | control_object :: q' =>
      match remove_previous (item_setting control_object) keep [] with
      | Returned new_keep => dedupe_loop q' (new_keep ++ [control_object])
      | Raised e => (Raised e, q')
      | Spinning => (Spinning, q')
      end
  end.

Definition dedupe (q : list item) : outcome (list item) * list item :=
  dedupe_loop q [].

(** ** The hardware under SPIDevice *)

(** What the session does to the outside world, in order: samples of the
    ready line, writes of the trigger line, bus transactions, settle
    delays (in milliseconds) and calls of the external EEPROM codec.  A
    hardware operation that raised is logged as [EvFault]. *)
Inductive event :=
| EvReady (b : bool)
| EvTrigger (b : bool)
| EvReadInto (data : list Z)
| EvWrite (frame : list Z)
| EvWriteReadInto (command : list Z) (data : list Z)
| EvSleep (ms : Z)
| EvParse (pages : list (list Z))
| EvGenerateWriteBuffers
| EvFault (e : exn).

#[global] Instance event_eq_dec : EqDecision event.
Proof. solve_decision. Defined.

(** The FT232H side of [busio.SPI] and of the two [digitalio] pins.  Every
    operation may raise (a USB fault) and moves the hardware on.
    [SPI_write frame] sends [frame]; [SPI_readinto n] and
    [SPI_write_readinto command n] deliver the bytes clocked in for a
    buffer of [n] bytes. *)
Class Hardware (H : Type) := {
  ready_value : H → outcome bool * H;
  trigger_set : bool → H → outcome () * H;
  SPI_readinto : nat → H → outcome (list Z) * H;
  SPI_write : list Z → H → outcome () * H;
  SPI_write_readinto : list Z → nat → H → outcome (list Z) * H
}.

(** ** Settings, EEPROM and Reading *)

Module State.

(** SpectrometerState: the attributes SPIDevice reads or writes. *)
Record t := {
  integration_time_ms : PyVal;
  scans_to_average : Z;
  laser_power_perc : PyVal;
  laser_power_mW : PyVal;
  laser_enabled : PyVal
}.

Definition set_integration_time_ms (v : PyVal) (s : t) : t :=
  {| integration_time_ms := v;
     scans_to_average := scans_to_average s;
     laser_power_perc := laser_power_perc s;
     laser_power_mW := laser_power_mW s;
     laser_enabled := laser_enabled s |}.

End State.

Module EEPROM.

(** The EEPROM object: the two attributes SPIDevice touches;
    [buffers] stands for what the codec keeps of the pages it parsed. *)
Record t := {
  active_pixels_horizontal : Z;
  write_buffers : list (list Z);
  buffers : list (list Z)
}.

Definition set_active_pixels_horizontal (v : Z) (e : t) : t :=
  {| active_pixels_horizontal := v;
     write_buffers := write_buffers e;
     buffers := buffers e |}.

End EEPROM.

(** The external EEPROM codec: [EEPROM.parse] and
    [EEPROM.generate_write_buffers] live outside this repository part, so
    they are taken as an interface.  [MAX_PAGES] is [EEPROM.MAX_PAGES]. *)
Class EEPROMCodec := {
  MAX_PAGES : nat;
  parse : list (list Z) → EEPROM.t → outcome () * EEPROM.t;
  generate_write_buffers : EEPROM.t → outcome () * EEPROM.t
}.

Module Settings.

(** SpectrometerSettings *)
Record t := { eeprom : EEPROM.t; state : State.t }.

Definition set_eeprom (e : EEPROM.t) (s : t) : t :=
  {| eeprom := e; state := state s |}.

Definition set_state (st : State.t) (s : t) : t :=
  {| eeprom := eeprom s; state := st |}.

End Settings.

Module Reading.

(** Modelled from the spec: the [Reading] class is not part of the
    source.  The spec's data model gives it a session sequence number,
    the integration time, the laser parameters, an optional spectrum, the
    averaging (count, running-sum) pair and a failure indicator; a fresh
    [Reading] has no spectrum, no running sum and no failure. *)
Record t := {
  integration_time_ms : PyVal;
  laser_power_perc : PyVal;
  laser_power_mW : PyVal;
  laser_enabled : PyVal;
  spectrum : option (list Z);
  session_count : Z;
  sum_count : Z;
  summed_spectra : option (list Z);
  failure : option string
}.

(** [Reading(device_id)] *)
Definition new : t :=
  {| integration_time_ms := VNone;
     laser_power_perc := VNone;
     laser_power_mW := VNone;
     laser_enabled := VNone;
     spectrum := None;
     session_count := 0;
     sum_count := 0;
     summed_spectra := None;
     failure := None |}.

End Reading.

(** What [acquire_data] returns and what a response carries as [data]:
    [None], [True] or [False], or a [Reading]. *)
Inductive pydata :=
| DNone
| DBool (b : bool)
| DReading (r : Reading.t).

#[global] Instance State_eq_dec : EqDecision State.t.
Proof. solve_decision. Defined.
#[global] Instance EEPROM_eq_dec : EqDecision EEPROM.t.
Proof. solve_decision. Defined.
#[global] Instance Reading_eq_dec : EqDecision Reading.t.
Proof. solve_decision. Defined.

(** ** The state-and-exception monad *)

(** A method body: it reads and updates the object [S] and returns, raises
    or spins.  The state is kept on every path, since an attribute written
    before a raise stays written. *)
Definition M (S A : Type) : Type := S → outcome A * S.

#[global] Instance M_ret {S} : MRet (M S) := λ A a s, (Returned a, s).

#[global] Instance M_bind {S} : MBind (M S) := λ A B f m s,
  match m s with
  | (Returned a, s') => f a s'
  | (Raised e, s') => (Raised e, s')
  | (Spinning, s') => (Spinning, s')
  end.

Definition raise {S A} (e : exn) : M S A := λ s, (Raised e, s).
Definition spin {S A} : M S A := λ s, (Spinning, s).
Definition get {S} : M S S := λ s, (Returned s, s).
Definition modify {S} (f : S → S) : M S () := λ s, (Returned (), f s).

(** [try: body except E: handler], for the exceptions [catches] selects. *)
Definition try_except {S A} (body : M S A) (catches : exn → bool)
    (handler : exn → M S A) : M S A := λ s,
  match body s with
  | (Raised e, s') => if catches e then handler e s' else (Raised e, s')
  | r => r
  end.

(** [for x in xs: body x] *)
Fixpoint for_each {S A} (xs : list A) (body : A → M S ()) : M S () :=
  match xs with
  | [] => mret ()
  | x :: xs' => body x ≫= λ _, for_each xs' body
  end.

(** ** The SPIDevice object *)

(** The closures [init_lambdas] stores: [lambda x: self.write_eeprom()] and
    [lambda x: self.set_integration_time_ms(x)]. *)
Inductive handler :=
| call_write_eeprom
| call_set_integration_time_ms.

(** The attributes of [SPIDevice] that its methods read or write; [hw] is
    the bus with its two pins ([SPI], [ready], [trigger]) and [trace] the
    log of what has been done to it. *)
Record SPIDevice (H : Type) := {
  disconnect : bool;
  acquiring : bool;
  settings : Settings.t;
  summed_spectra : option (list Z);
  sum_count : Z;
  session_reading_count : Z;
  failure_count : Z;
  lambdas : gmap string handler;
  hw : H;
  trace : list event
}.
Arguments disconnect {H} _.
Arguments acquiring {H} _.
Arguments settings {H} _.
Arguments summed_spectra {H} _.
Arguments sum_count {H} _.
Arguments session_reading_count {H} _.
Arguments failure_count {H} _.
Arguments lambdas {H} _.
Arguments hw {H} _.
Arguments trace {H} _.

Section Setters.
Context {H : Type}.
Implicit Type self : SPIDevice H.

(** The disconnect flag is an attribute that callers assign. *)
Definition set_disconnect (v : bool) self : SPIDevice H :=
  {| disconnect := v; acquiring := acquiring self;
     settings := settings self; summed_spectra := summed_spectra self;
     sum_count := sum_count self;
     session_reading_count := session_reading_count self;
     failure_count := failure_count self; lambdas := lambdas self;
     hw := hw self; trace := trace self |}.

Definition set_acquiring (v : bool) self : SPIDevice H :=
  {| disconnect := disconnect self; acquiring := v;
     settings := settings self; summed_spectra := summed_spectra self;
     sum_count := sum_count self;
     session_reading_count := session_reading_count self;
     failure_count := failure_count self; lambdas := lambdas self;
     hw := hw self; trace := trace self |}.

Definition set_settings (v : Settings.t) self : SPIDevice H :=
  {| disconnect := disconnect self; acquiring := acquiring self;
     settings := v; summed_spectra := summed_spectra self;
     sum_count := sum_count self;
     session_reading_count := session_reading_count self;
     failure_count := failure_count self; lambdas := lambdas self;
     hw := hw self; trace := trace self |}.

Definition set_summed_spectra (v : option (list Z)) self : SPIDevice H :=
  {| disconnect := disconnect self; acquiring := acquiring self;
     settings := settings self; summed_spectra := v;
     sum_count := sum_count self;
     session_reading_count := session_reading_count self;
     failure_count := failure_count self; lambdas := lambdas self;
     hw := hw self; trace := trace self |}.

Definition set_sum_count (v : Z) self : SPIDevice H :=
  {| disconnect := disconnect self; acquiring := acquiring self;
     settings := settings self; summed_spectra := summed_spectra self;
     sum_count := v;
     session_reading_count := session_reading_count self;
     failure_count := failure_count self; lambdas := lambdas self;
     hw := hw self; trace := trace self |}.

Definition set_session_reading_count (v : Z) self : SPIDevice H :=
  {| disconnect := disconnect self; acquiring := acquiring self;
     settings := settings self; summed_spectra := summed_spectra self;
     sum_count := sum_count self;
     session_reading_count := v;
     failure_count := failure_count self; lambdas := lambdas self;
     hw := hw self; trace := trace self |}.

Definition set_failure_count (v : Z) self : SPIDevice H :=
  {| disconnect := disconnect self; acquiring := acquiring self;
     settings := settings self; summed_spectra := summed_spectra self;
     sum_count := sum_count self;
     session_reading_count := session_reading_count self;
     failure_count := v; lambdas := lambdas self;
     hw := hw self; trace := trace self |}.

Definition set_hw (v : H) self : SPIDevice H :=
  {| disconnect := disconnect self; acquiring := acquiring self;
     settings := settings self; summed_spectra := summed_spectra self;
     sum_count := sum_count self;
     session_reading_count := session_reading_count self;
     failure_count := failure_count self; lambdas := lambdas self;
     hw := v; trace := trace self |}.

Definition set_trace (v : list event) self : SPIDevice H :=
  {| disconnect := disconnect self; acquiring := acquiring self;
     settings := settings self; summed_spectra := summed_spectra self;
     sum_count := sum_count self;
     session_reading_count := session_reading_count self;
     failure_count := failure_count self; lambdas := lambdas self;
     hw := hw self; trace := v |}.

End Setters.

(** ** SPIDevice methods *)

Section Methods.
Context {H : Type} `{!Hardware H} `{!EEPROMCodec}.
Local Open Scope Z_scope.

Local Abbreviation dev := (SPIDevice H).

(** One operation on the hardware; its result, or its fault, is logged. *)
Definition hw_op {A} (op : H → outcome A * H) (ev : A → event) : M dev A :=
  λ self,
  match op (hw self) with
  | (Returned a, h) =>
      (Returned a, set_trace (trace self ++ [ev a]) (set_hw h self))
  | (Raised e, h) =>
      (Raised e, set_trace (trace self ++ [EvFault e]) (set_hw h self))
  | (Spinning, h) => (Spinning, set_hw h self)
  end.

Definition log (e : event) : M dev () :=
  modify (λ self, set_trace (trace self ++ [e]) self).

(** [time.sleep], in milliseconds *)
Definition sleep (ms : Z) : M dev () := log (EvSleep ms).

(** The Python slice [buf[start:end]]. *)
Definition slice {A} (buf : list A) (start end_ : nat) : list A :=
  take (end_ - start) (drop start buf).

(** The slice assignment [buf[start:end] = values]: the slice is replaced,
    whatever the two lengths. *)
Definition slice_assign {A} (buf : list A) (start end_ : nat)
    (values : list A) : list A :=
  take start buf ++ values ++ drop end_ buf.

(** [bytearray(n)] *)
Definition bytearray (n : nat) : list Z := replicate n 0.

(** A buffer after a read has put [data] at its start; its length stays. *)
Definition fill (buf data : list Z) : list Z :=
  take (length buf) (data ++ drop (length data) buf).

(** [buf[i] = v] on a bytearray: the index must exist and the value must be
    a byte. *)
Definition setitem (buf : list Z) (i : nat) (v : Z) : M dev (list Z) :=
  if bool_decide (i < length buf)%nat
  then if bool_decide (0 ≤ v < 256)
       then mret (<[i := v]> buf)
       else raise ValueError
  else raise IndexError.

(** [self.ready.value] *)
Definition ready : M dev bool := hw_op ready_value EvReady.

(** [self.trigger.value = b] *)
Definition trigger (b : bool) : M dev () :=
  hw_op (trigger_set b) (λ _, EvTrigger b).

(** [self.SPI.write(buf, start, end)]: sends [buf[start:end]]. *)
Definition bus_write (buf : list Z) (start end_ : nat) : M dev () :=
  let frame := slice buf start end_ in
  hw_op (SPI_write frame) (λ _, EvWrite frame).

(** [self.SPI.readinto(buf, start, end)]: the new content of [buf]. *)
Definition bus_readinto (buf : list Z) (start end_ : nat)
  : M dev (list Z) :=
  data ← hw_op (SPI_readinto (end_ - start)) EvReadInto;
  mret (take start buf ++ fill (slice buf start end_) data ++ drop end_ buf).

(** [self.SPI.write_readinto(command, buf)]: the new content of [buf]. *)
Definition bus_write_readinto (command buf : list Z) : M dev (list Z) :=
  data ← hw_op (SPI_write_readinto command (length buf))
               (EvWriteReadInto command);
  mret (fill buf data).

(** A call of the external codec on [self.settings.eeprom]. *)
Definition codec_call (f : EEPROM.t → outcome () * EEPROM.t) : M dev () :=
  λ self,
  let '(r, e) := f (Settings.eeprom (settings self)) in
  (r, set_settings (Settings.set_eeprom e (settings self)) self).

(** *** EEPROMReadPage *)
Definition EEPROMReadPage (page : Z) : M dev (list Z) :=
  let EEPROMPage := bytearray 74 in
  let command := [0x3C; 0x00; 0x02; 0xB0; 0x40 + page; 0xFF; 0x3E] in
  bus_write command 0 7;;
  sleep 10;;
  let command := [0x3C; 0x00; 0x01; 0x31; 0xFF; 0x3E] in
  bus_write_readinto command EEPROMPage.

(** *** connect *)

(** [while self.ready.value: self.SPI.readinto(response, 0, 2)] *)
Fixpoint drain_ready (fuel : nat) (response : list Z) : M dev () :=
  match fuel with
  | O => spin
  | S fuel' =>
      b ← ready;
      if b : bool
      then response' ← bus_readinto response 0 2; drain_ready fuel' response'
      else mret ()
  end.

(** The [for i in range(EEPROM.MAX_PAGES)] loop of [connect]. *)
Fixpoint read_pages (fuel : nat) (indices : list nat)
    (eeprom_pages : list (list Z)) : M dev (list (list Z)) :=
  match indices with
  | [] => mret eeprom_pages
  | i :: indices' =>
      let response := bytearray 2 in
      drain_ready fuel response;;
      page ← EEPROMReadPage (Z.of_nat i);
      read_pages fuel indices' (eeprom_pages ++ [page])
  end.

(** [self.settings.eeprom.parse(eeprom_pages)] *)
Definition eeprom_parse (eeprom_pages : list (list Z)) : M dev () :=
  log (EvParse eeprom_pages);;
  codec_call (parse eeprom_pages).

Definition connect (fuel : nat) : M dev bool :=
  eeprom_pages ← read_pages fuel (seq 0 MAX_PAGES) [];
  let eeprom_pages := (λ page, slice page 9 74) <$> eeprom_pages in
  eeprom_parse eeprom_pages;;
  modify (λ self,
    set_settings
      (Settings.set_eeprom
         (EEPROM.set_active_pixels_horizontal 1952
            (Settings.eeprom (settings self)))
         (settings self)) self);;
  modify (λ self,
    set_settings
      (Settings.set_state
         (State.set_integration_time_ms (VInt 10)
            (Settings.state (settings self)))
         (settings self)) self);;
  mret true.

(** *** Acquire *)

(** What [Acquire] returns: [False] or the list of pixels. *)
Inductive acquired :=
| AcqFalse
| AcqSpectrum (spectra : list Z).

(** [while not self.ready.value: pass] *)
Fixpoint wait_ready (fuel : nat) : M dev () :=
  match fuel with
  | O => spin
  | S fuel' => b ← ready; if b : bool then mret () else wait_ready fuel'
  end.

(** [while self.ready.value:] read two bytes, assemble one pixel, append. *)
Fixpoint read_spectra (fuel : nat) (SPIBuf spectra : list Z)
  : M dev (list Z) :=
  match fuel with
  | O => spin
  | S fuel' =>
      b ← ready;
      if b : bool
      then SPIBuf' ← bus_readinto SPIBuf 0 2;
           let pixel := Z.shiftl (SPIBuf' !!! 0%nat) 8 + SPIBuf' !!! 1%nat in
           read_spectra fuel' SPIBuf' (spectra ++ [pixel])
      else mret spectra
  end.

Definition Acquire (fuel : nat) : M dev acquired :=
  self ← get;
  if disconnect self then mret AcqFalse else
  modify (set_acquiring true);;
  let SPIBuf := bytearray 2 in
  trigger true;;
  wait_ready fuel;;
  trigger false;;
  spectra ← read_spectra fuel SPIBuf [];
  modify (set_acquiring false);;
  mret (AcqSpectrum spectra).

(** *** acquire_data *)

(** [for i in range(len(summed)): summed[i] += spectrum[i]], in place: the
    additions done before a missing [spectrum[i]] stay done.  The flag
    tells whether every index was there. *)
Fixpoint add_spectrum (summed spectrum : list Z) : list Z * bool :=
  match summed, spectrum with
  | [], _ => ([], true)
  | _ :: _, [] => (summed, false)
  | a :: summed', b :: spectrum' =>
      let '(r, ok) := add_spectrum summed' spectrum' in ((a + b) :: r, ok)
  end.

(** The averaging block of [acquire_data].  [float(i)] of a pixel and the
    sums of such values are whole numbers that a Python float holds
    exactly, so they are kept as integers. *)
Definition accumulate (spectrum : list Z) : M dev () :=
  self ← get;
  (if bool_decide (sum_count self = 0)
   then modify (set_summed_spectra (Some spectrum))
   else match summed_spectra self with
        | None => raise TypeError
        | Some summed =>
            let '(summed', ok) := add_spectrum summed spectrum in
            modify (set_summed_spectra (Some summed'));;
            if ok : bool then mret () else raise IndexError
        end);;
  modify (λ self, set_sum_count (sum_count self + 1) self).

(** [not reading.failure] *)
Definition no_failure (reading : Reading.t) : bool :=
  match Reading.failure reading with
  | None => true
  | Some s => bool_decide (s = EmptyString)
  end.

Definition acquire_data (fuel : nat) : M dev pydata :=
  self ← get;
  if disconnect self then mret (DBool false) else
  let averaging_enabled :=
    bool_decide (1 < State.scans_to_average (Settings.state (settings self))) in
  let reading := Reading.new in
  r ← try_except
        (let st := Settings.state (settings self) in
         spectrum ← Acquire fuel;
         match spectrum with
         | AcqFalse => mret None
         | AcqSpectrum spectra =>
             mret (Some
               {| Reading.integration_time_ms := State.integration_time_ms st;
                  Reading.laser_power_perc := State.laser_power_perc st;
                  Reading.laser_power_mW := State.laser_power_mW st;
                  Reading.laser_enabled := State.laser_enabled st;
                  Reading.spectrum := Some spectra;
                  Reading.session_count := Reading.session_count reading;
                  Reading.sum_count := Reading.sum_count reading;
                  Reading.summed_spectra := Reading.summed_spectra reading;
                  Reading.failure := Reading.failure reading |})
         end)
        (λ e, bool_decide (e = USBError))
        (* the handler counts the failure, then formats [self.device], an
           attribute SPIDevice does not have *)
        (λ _, modify (λ self, set_failure_count (failure_count self + 1) self);;
              raise AttributeError);
  match r with
  | None => mret (DBool false)
  | Some reading =>
      (if no_failure reading
       then if averaging_enabled
            then accumulate (default [] (Reading.spectrum reading))
            else mret ()
       else mret ());;
      modify (λ self,
        set_session_reading_count (session_reading_count self + 1) self);;
      self ← get;
      mret (DReading
        {| Reading.integration_time_ms := Reading.integration_time_ms reading;
           Reading.laser_power_perc := Reading.laser_power_perc reading;
           Reading.laser_power_mW := Reading.laser_power_mW reading;
           Reading.laser_enabled := Reading.laser_enabled reading;
           Reading.spectrum := Reading.spectrum reading;
           Reading.session_count := session_reading_count self;
           Reading.sum_count := sum_count self;
           Reading.summed_spectra := Reading.summed_spectra reading;
           Reading.failure := Reading.failure reading |})
  end.

(** *** EEPROMWritePage *)

(** The loop [for x in range(0, 64): EEPROMWrCmd[x+4] = write_array[x]];
    a missing [write_array[x]] raises IndexError. *)
Fixpoint copy_payload (xs : list nat) (write_array EEPROMWrCmd : list Z)
  : M dev (list Z) :=
  match xs with
  | [] => mret EEPROMWrCmd
  | x :: xs' =>
      match write_array !! x with
      | None => raise IndexError
      | Some v =>
          EEPROMWrCmd' ← setitem EEPROMWrCmd (x + 4) v;
          copy_payload xs' write_array EEPROMWrCmd'
      end
  end.

Definition EEPROMWritePage (page : Z) (write_array : list Z) : M dev () :=
  let EEPROMWrCmd := bytearray 70 in
  let EEPROMWrCmd := slice_assign EEPROMWrCmd 0 3 [0x3C; 0x00; 0x41; 0xB1] in
  EEPROMWrCmd ← try_except
      (copy_payload (seq 0 64) write_array EEPROMWrCmd)
      (λ _, true)
      (* the handler logs and re-raises *)
      (λ e, raise e);
  EEPROMWrCmd ← setitem EEPROMWrCmd 68 0xFF;
  EEPROMWrCmd ← setitem EEPROMWrCmd 69 0x3E;
  bus_write EEPROMWrCmd 0 70;;
  let command := [0x3C; 0x00; 0x02; 0xB0; 0x80 + page; 0xFF; 0x3E] in
  bus_write command 0 7;;
  sleep 100.

(** *** write_eeprom *)

(** The loop [for page in range(EEPROM.MAX_PAGES)] of [write_eeprom]. *)
Fixpoint write_pages (pages : list nat) : M dev () :=
  match pages with
  | [] => mret ()
  | page :: pages' =>
      self ← get;
      match EEPROM.write_buffers (Settings.eeprom (settings self)) !! page with
      | None => raise IndexError
      | Some write_array =>
          EEPROMWritePage (Z.of_nat page) write_array;;
          write_pages pages'
      end
  end.

Definition write_eeprom : M dev bool :=
  ok ← try_except
      (log EvGenerateWriteBuffers;;
       codec_call generate_write_buffers;;
       mret true)
      (λ _, true)
      (λ _, mret false);
  if ok : bool
  then write_pages (seq 0 MAX_PAGES);; mret true
  else mret false.

(** *** set_integration_time_ms and SPIWrite *)

Definition INTEGRATION_ADDRESS : Z := 0x11.

(** A Python value used as an integer ([bool] is a subclass of [int]). *)
Definition as_int (v : PyVal) : option Z :=
  match v with
  | VInt z => Some z
  | VBool b => Some (Z.b2z b)
  | _ => None
  end.

Definition SPIWrite (value : PyVal) (address : Z) : M dev () :=
  match as_int value with
  | None => raise TypeError
  | Some v =>
      let txData := bytearray 2 in
      txData ← setitem txData 1 (Z.shiftr v 8);
      txData ← setitem txData 0 (v - Z.shiftl (txData !!! 1%nat) 8);
      let command := [0x3C; 0x00; 0x03; address + 0x80;
                      txData !!! 0%nat; txData !!! 1%nat; 0xFF; 0x3E] in
      bus_write command 0 8;;
      sleep 10
  end.

(** [while self.acquiring: time.sleep(0.01)] *)
Fixpoint wait_not_acquiring (fuel : nat) : M dev () :=
  match fuel with
  | O => spin
  | S fuel' =>
      self ← get;
      if acquiring self then sleep 10;; wait_not_acquiring fuel' else mret ()
  end.

Definition set_integration_time_ms (fuel : nat) (value : PyVal) : M dev () :=
  wait_not_acquiring fuel;;
  SPIWrite value INTEGRATION_ADDRESS;;
  modify (λ self,
    set_settings
      (Settings.set_state
         (State.set_integration_time_ms value
            (Settings.state (settings self)))
         (settings self)) self).

(** *** init_lambdas and change_setting *)

Definition init_lambdas : gmap string handler :=
  <["integration_time_ms" := call_set_integration_time_ms]>
    (<["replace_eeprom" := call_write_eeprom]>
       (<["write_eeprom" := call_write_eeprom]> ∅)).

Definition call_handler (fuel : nat) (f : handler) (x : PyVal) : M dev () :=
  match f with
  | call_write_eeprom => write_eeprom;; mret ()
  | call_set_integration_time_ms => set_integration_time_ms fuel x
  end.

Definition change_setting (fuel : nat) (setting : string) (value : PyVal)
  : M dev bool :=
  self ← get;
  match lambdas self !! setting with
  | Some f => call_handler fuel f value;; mret true
  | None => mret true
  end.

End Methods.

(** ** Requests, responses and the device interface *)

(** SpectrometerRequest: a named operation with positional arguments. *)
Record SpectrometerRequest := { cmd : string; args : list PyVal }.

(** SpectrometerResponse *)
Record SpectrometerResponse := {
  data : pydata;
  error_msg : string;
  keep_alive : bool;
  poison_pill : bool
}.

(** What [handle_requests] hands back per request: a
    [SpectrometerResponse], or something else (a naked value). *)
Inductive reply :=
| Naked (d : pydata)
| Response (r : SpectrometerResponse).

(** The one method the worker calls on whichever device class it
    connected ([OceanDevice], [AndorDevice], [BLEDevice], [SPIDevice],
    [WasatchDevice]). *)
Class Device (D : Type) := {
  handle_requests : list SpectrometerRequest → M D (list reply)
}.

(** [SpectrometerResponse(data)] with the other fields at their
    defaults. *)
Definition respond (d : pydata) : SpectrometerResponse :=
  {| data := d; error_msg := EmptyString;
     keep_alive := false; poison_pill := false |}.

(** [SpectrometerRequest(record.setting, args=[record.value])] *)
Definition request_of (record : ControlObject) : SpectrometerRequest :=
  {| cmd := setting record; args := [value record] |}.

Section SPIRequests.
Context {H : Type}.

(** [self.connected_device.handle_requests] where the connected device is
    an SPIDevice.  The class has no base class and defines neither
    [handle_requests] nor [__getattr__]: the attribute lookup raises
    AttributeError before anything is called, and the session is not
    touched. *)
Definition SPIDevice_handle_requests (requests : list SpectrometerRequest)
  : M (SPIDevice H) (list reply) :=
  raise AttributeError.

Definition SPIDevice_Device : Device (SPIDevice H) :=
  {| handle_requests := SPIDevice_handle_requests |}.

End SPIRequests.

(** ** WrapperWorker.run: the steady-state loop *)

(** The worker's queues, its device and the locals of [run] that live
    across cycles.  [response_maxsize] is the bound of the response queue
    (0: none); [naps] are the poll sleeps taken, in milliseconds. *)
Record Worker (D : Type) := {
  command_queue : list item;
  response_queue : list SpectrometerResponse;
  response_maxsize : nat;
  connected_device : D;
  num_connected_devices : PyVal;
  thread_timeout_sec : PyVal;
  received_poison_pill_command : bool;
  sent_good : bool;
  naps : list Z
}.
Arguments command_queue {D} _.
Arguments response_queue {D} _.
Arguments response_maxsize {D} _.
Arguments connected_device {D} _.
Arguments num_connected_devices {D} _.
Arguments thread_timeout_sec {D} _.
Arguments received_poison_pill_command {D} _.
Arguments sent_good {D} _.
Arguments naps {D} _.

(** How one pass through the body of [while True] ends. *)
Inductive flow := Continue | Break.

Section WorkerLoop.
Context {D : Type} `{!Device D}.
Implicit Type w : Worker D.

Definition set_command_queue (v : list item) w : Worker D :=
  {| command_queue := v; response_queue := response_queue w;
     response_maxsize := response_maxsize w;
     connected_device := connected_device w;
     num_connected_devices := num_connected_devices w;
     thread_timeout_sec := thread_timeout_sec w;
     received_poison_pill_command := received_poison_pill_command w;
     sent_good := sent_good w; naps := naps w |}.

Definition set_response_queue (v : list SpectrometerResponse) w : Worker D :=
  {| command_queue := command_queue w; response_queue := v;
     response_maxsize := response_maxsize w;
     connected_device := connected_device w;
     num_connected_devices := num_connected_devices w;
     thread_timeout_sec := thread_timeout_sec w;
     received_poison_pill_command := received_poison_pill_command w;
     sent_good := sent_good w; naps := naps w |}.

Definition set_connected_device (v : D) w : Worker D :=
  {| command_queue := command_queue w; response_queue := response_queue w;
     response_maxsize := response_maxsize w;
     connected_device := v;
     num_connected_devices := num_connected_devices w;
     thread_timeout_sec := thread_timeout_sec w;
     received_poison_pill_command := received_poison_pill_command w;
     sent_good := sent_good w; naps := naps w |}.

Definition set_num_connected_devices (v : PyVal) w : Worker D :=
  {| command_queue := command_queue w; response_queue := response_queue w;
     response_maxsize := response_maxsize w;
     connected_device := connected_device w;
     num_connected_devices := v;
     thread_timeout_sec := thread_timeout_sec w;
     received_poison_pill_command := received_poison_pill_command w;
     sent_good := sent_good w; naps := naps w |}.

Definition set_thread_timeout_sec (v : PyVal) w : Worker D :=
  {| command_queue := command_queue w; response_queue := response_queue w;
     response_maxsize := response_maxsize w;
     connected_device := connected_device w;
     num_connected_devices := num_connected_devices w;
     thread_timeout_sec := v;
     received_poison_pill_command := received_poison_pill_command w;
     sent_good := sent_good w; naps := naps w |}.

Definition set_received_poison_pill_command (v : bool) w : Worker D :=
  {| command_queue := command_queue w; response_queue := response_queue w;
     response_maxsize := response_maxsize w;
     connected_device := connected_device w;
     num_connected_devices := num_connected_devices w;
     thread_timeout_sec := thread_timeout_sec w;
     received_poison_pill_command := v;
     sent_good := sent_good w; naps := naps w |}.

Definition set_sent_good (v : bool) w : Worker D :=
  {| command_queue := command_queue w; response_queue := response_queue w;
     response_maxsize := response_maxsize w;
     connected_device := connected_device w;
     num_connected_devices := num_connected_devices w;
     thread_timeout_sec := thread_timeout_sec w;
     received_poison_pill_command := received_poison_pill_command w;
     sent_good := v; naps := naps w |}.

Definition set_naps (v : list Z) w : Worker D :=
  {| command_queue := command_queue w; response_queue := response_queue w;
     response_maxsize := response_maxsize w;
     connected_device := connected_device w;
     num_connected_devices := num_connected_devices w;
     thread_timeout_sec := thread_timeout_sec w;
     received_poison_pill_command := received_poison_pill_command w;
     sent_good := sent_good w; naps := v |}.

(** A call on [self.connected_device]. *)
Definition on_device {A} (m : M D A) : M (Worker D) A := λ w,
  let '(r, d) := m (connected_device w) in (r, set_connected_device d w).

(** [self.dedupe(self.command_queue)] *)
Definition drain_and_dedupe : M (Worker D) (list item) := λ w,
  let '(r, q) := dedupe (command_queue w) in (r, set_command_queue q w).

(** Whether the response queue is full. *)
Definition full w : bool :=
  bool_decide (response_maxsize w ≠ 0%nat
               ∧ (response_maxsize w ≤ length (response_queue w))%nat).

(** [self.response_queue.put(r)]: blocks while the queue is full. *)
Definition put (r : SpectrometerResponse) : M (Worker D) () :=
  w ← get;
  if full w then spin
  else modify (set_response_queue (response_queue w ++ [r])).

(** [self.response_queue.put_nowait(r)]: raises [queue.Full] instead. *)
Definition put_nowait (r : SpectrometerResponse) : M (Worker D) () :=
  w ← get;
  if full w then raise OtherError
  else modify (set_response_queue (response_queue w ++ [r])).

(** The body of [for record in dedupped]. *)
Definition apply_record (record : item) : M (Worker D) () :=
  match record with
  | None => modify (set_received_poison_pill_command true)
  | Some co =>
      let req := request_of co in
      on_device (handle_requests [req]);;
      if decide (setting co = "num_connected_devices")
      then modify (set_num_connected_devices (value co))
      else if decide (setting co = "subprocess_timeout_sec")
      then modify (set_thread_timeout_sec (value co))
      else mret ()
  end.

(** [time.sleep(WrapperWorker.POLLER_WAIT_SEC * num_connected_devices)],
    with [POLLER_WAIT_SEC] = 50 ms. *)
Definition poll_sleep : M (Worker D) () :=
  w ← get;
  match as_int (num_connected_devices w) with
  | None => raise TypeError
  | Some n =>
      if bool_decide (n < 0)%Z then raise ValueError
      else modify (set_naps (naps w ++ [50 * n]%Z))
  end.

Definition with_poison_pill (r : SpectrometerResponse) : SpectrometerResponse :=
  {| data := data r; error_msg := error_msg r;
     keep_alive := keep_alive r; poison_pill := true |}.

Definition with_data (d : pydata) (r : SpectrometerResponse)
  : SpectrometerResponse :=
  {| data := d; error_msg := error_msg r;
     keep_alive := keep_alive r; poison_pill := poison_pill r |}.

(** The classification of a reading response, up to the poll sleep. *)
Definition relay (reading_response : SpectrometerResponse)
  : M (Worker D) flow :=
  if keep_alive reading_response
  then put reading_response;;
       modify (set_sent_good true);;
       mret Continue
  else
    (if bool_decide (error_msg reading_response ≠ EmptyString)
     then match data reading_response with
          | DNone => put (with_data (DReading Reading.new) reading_response)
          | _ => put reading_response
          end
     else match data reading_response with
          | DNone => mret ()
          | DBool false => put (with_poison_pill reading_response)
          | DBool true => raise AttributeError
          | DReading r =>
              match Reading.failure r with
              | Some _ => put (with_poison_pill reading_response)
              | None =>
                  match Reading.spectrum r with
                  | Some _ =>
                      try_except (put_nowait reading_response)
                        (λ _, true) (λ _, mret ())
                  | None => mret ()
                  end
              end
          end);;
    poll_sleep;;
    mret Continue.

(** The first part of a pass: dedupe the command queue and apply what
    survives. *)
Definition apply_commands : M (Worker D) () :=
  dedupped ← drain_and_dedupe;
  for_each dedupped apply_record.

(** One pass through the body of [while True]. *)
Definition cycle : M (Worker D) flow :=
  apply_commands;;
  w ← get;
  if received_poison_pill_command w then mret Break else
  let req := {| cmd := "acquire_data"; args := [] |} in
  r ← try_except
        (replies ← on_device (handle_requests [req]);
         match replies with
         | [reading_response] => mret (Some reading_response)
         | _ => raise ValueError
         end)
        (λ _, true)
        (λ _, mret None);
  match r with
  | None => mret Continue
  | Some (Naked _) => mret Continue
  | Some (Response reading_response) => relay reading_response
  end.

(** [while True]: at most [cycles] passes. *)
Fixpoint run_loop (cycles : nat) : M (Worker D) () :=
  match cycles with
  | O => spin
  | S cycles' =>
      f ← cycle;
      match f with
      | Break => mret ()
      | Continue => run_loop cycles'
      end
  end.

End WorkerLoop.

(** ** Orders of occurrence, for the result of dedupe *)

(** The distinct elements of [l], each at the place of its first
    occurrence. *)
Fixpoint first_occurrences {A} `{EqDecision A} (l : list A) : list A :=
  match l with
  | [] => []
  | x :: l' => x :: filter (λ y, y ≠ x) (first_occurrences l')
  end.

(** The distinct elements of [l], each at the place of its last
    occurrence. *)
Fixpoint last_occurrences {A} `{EqDecision A} (l : list A) : list A :=
  match l with
  | [] => []
  | x :: l' =>
      if decide (x ∈ l') then last_occurrences l'
      else x :: last_occurrences l'
  end.

(** The item enqueued last under [name]. *)
Definition last_enqueued (name : option string) (q : list item)
  : option item :=
  last (filter (λ x, item_setting x = name) q).

(** [keep] has one entry per name of the batch [q], the one enqueued last
    for it, and its names come in the order [order] gives them. *)
Definition deduped_in (order : list (option string) → list (option string))
    (q keep : list item) : Prop :=
  NoDup (item_setting <$> keep)
  ∧ (∀ x, x ∈ keep → last_enqueued (item_setting x) q = Some x)
  ∧ item_setting <$> keep = order (item_setting <$> q).

(** No poison pill is followed by another item. *)
Definition pill_only_last (q : list item) : Prop :=
  ∀ i, q !! i = Some None → S i = length q.

(** The items of [q] that are the last under their name, in the order of
    the queue. *)
Fixpoint keep_last (q : list item) : list item :=
  match q with
  | [] => []
  | x :: q' =>
      if decide (item_setting x ∈ item_setting <$> q') then keep_last q'
      else x :: keep_last q'
  end.

(** ** Repeated acquisitions and sums of spectra *)

Section Acquisitions.
Context {H : Type} `{!Hardware H} `{!EEPROMCodec}.

(** [n] calls of [acquire_data] in a row, as the worker makes them, with
    what each returned. *)
Fixpoint acquire_times (fuel n : nat) : M (SPIDevice H) (list pydata) :=
  match n with
  | O => mret []
  | S n' =>
      d ← acquire_data fuel;
      ds ← acquire_times fuel n';
      mret (d :: ds)
  end.

(** Everything of the session but the hardware, its trace and the
    [acquiring] flag is the same in [self'] as in [self]. *)
Definition session_kept (self self' : SPIDevice H) : Prop :=
  disconnect self' = disconnect self
  ∧ settings self' = settings self
  ∧ summed_spectra self' = summed_spectra self
  ∧ sum_count self' = sum_count self
  ∧ session_reading_count self' = session_reading_count self
  ∧ failure_count self' = failure_count self
  ∧ lambdas self' = lambdas self.

(** A method body that only moves the hardware. *)
Definition keeps_session {A} (m : M (SPIDevice H) A) : Prop :=
  ∀ self, session_kept self (m self).2.

End Acquisitions.

(** The sum of pixel [i] over [spectra]. *)
Definition pixel_sum (i : nat) (spectra : list (list Z)) : Z :=
  foldr (λ s acc, (s !!! i + acc)%Z) 0%Z spectra.

(** The elementwise sum of spectra of [n] pixels. *)
Definition elementwise_sum (n : nat) (spectra : list (list Z)) : list Z :=
  (λ i, pixel_sum i spectra) <$> seq 0 n.

(** The spectra carried by a list of Readings. *)
Definition spectra_of (readings : list Reading.t) : list (list Z) :=
  (λ r, default [] (Reading.spectrum r)) <$> readings.

(** ** The shape of a connect trace *)

(** The page-select frame of [EEPROMReadPage] and its read-request
    frame. *)
Definition page_select (page : Z) : list Z :=
  [0x3C; 0x00; 0x02; 0xB0; 0x40 + page; 0xFF; 0x3E]%Z.
Definition read_request : list Z := [0x3C; 0x00; 0x01; 0x31; 0xFF; 0x3E]%Z.

(** The events of one [while self.ready.value] loop of [connect]: a high
    sample and a two-byte read per chunk, then the low sample that ends
    the loop. *)
Definition drained (chunks : list (list Z)) : list event :=
  concat ((λ d, [EvReady true; EvReadInto d]) <$> chunks) ++ [EvReady false].

(** The events of the read of page [i]: the drain loop, the page-select
    frame, the settle delay, the read request answered by [data]. *)
Definition page_read (i : nat) (chunks : list (list Z)) (data : list Z)
  : list event :=
  drained chunks
  ++ [EvWrite (page_select (Z.of_nat i)); EvSleep 10;
      EvWriteReadInto read_request data].

(** The events of the reads of pages [i], [i + 1], ... *)
Fixpoint page_reads (i : nat) (reads : list (list (list Z) * list Z))
  : list event :=
  match reads with
  | [] => []
  | (chunks, data) :: reads' =>
      page_read i chunks data ++ page_reads (S i) reads'
  end.



(** The 74-byte page buffer once the bus has delivered [data]. *)
Definition page_of (data : list Z) : list Z := fill (bytearray 74) data.

(** The page lists handed to the codec's [parse] in a trace. *)
Definition parse_calls (tr : list event) : list (list (list Z)) :=
  omap (λ e, match e with EvParse pages => Some pages | _ => None end) tr.


(** The frames written to the bus in [tr]. *)
Definition frames (tr : list event) : list (list Z) :=
  omap (λ e, match e with
             | EvWrite frame => Some frame
             | EvWriteReadInto command _ => Some command
             | _ => None
             end) tr.

(** The commands among the items of a batch. *)
Definition commands (records : list item) : list ControlObject :=
  omap id records.

(** ** WrapperWorker.run: from the start of the thread to the loop *)

(** The device classes [run] chooses from. *)
Inductive device_class :=
| class_OceanDevice
| class_AndorDevice
| class_BLEDevice
| class_SPIDevice
| class_WasatchDevice.

#[global] Instance device_class_eq_dec : EqDecision device_class.
Proof. solve_decision. Defined.

(** [is_options.index(True)] *)
Fixpoint index_True (is_options : list bool) : option nat :=
  match is_options with
  | [] => None
  | true :: _ => Some 0%nat
  | false :: is_options' => S <$> index_True is_options'
  end.

(** The class [run] connects with: the first flag set in the order of
    [is_options], the last entry of [device_classes] when none is. *)
Definition connecting_class (is_ocean is_andor is_spi is_ble : bool)
  : outcome device_class :=
  let is_options := [is_ocean; is_andor; is_ble; is_spi] in
  let device_classes :=
    [class_OceanDevice; class_AndorDevice; class_BLEDevice; class_SPIDevice;
     class_WasatchDevice] in
  if existsb id is_options
  then match index_True is_options with
       | None => Raised ValueError
       | Some type_connection =>
           match device_classes !! type_connection with
           | Some connecting_class => Returned connecting_class
           | None => Raised IndexError
           end
       end
  else Returned class_WasatchDevice.

(** The making of the device object of a class: a constructor call, or for
    the BLE class the object that comes with the device id.  The classes
    other than SPIDevice are outside this repository part, so this is
    taken as an interface. *)
Class Factory (D : Type) := {
  instantiate : device_class → outcome D
}.

(** What goes on the settings queue: [None], a response, or the response
    that hands over the settings object of the connected device. *)
Inductive settings_message :=
| MsgNone
| MsgResponse (r : SpectrometerResponse)
| MsgSettings.

(** The settings queue of a starting thread: its content and its bound
    (0: none). *)
Record Startup := {
  settings_queue : list settings_message;
  settings_maxsize : nat
}.

Definition settings_full (st : Startup) : bool :=
  bool_decide (settings_maxsize st ≠ 0%nat
               ∧ (settings_maxsize st ≤ length (settings_queue st))%nat).

(** [self.settings_queue.put(m)]: blocks while the queue is full. *)
Definition settings_put (m : settings_message) : M Startup () := λ st,
  if settings_full st then (Spinning, st)
  else (Returned (),
        {| settings_queue := settings_queue st ++ [m];
           settings_maxsize := settings_maxsize st |}).

(** [self.settings_queue.put_nowait(m)]: raises [queue.Full] instead. *)
Definition settings_put_nowait (m : settings_message) : M Startup () := λ st,
  if settings_full st then (Raised OtherError, st)
  else (Returned (),
        {| settings_queue := settings_queue st ++ [m];
           settings_maxsize := settings_maxsize st |}).

(** Whether a response's [data] is true in a condition. *)
Definition truthy (d : pydata) : bool :=
  match d with
  | DNone => false
  | DBool b => b
  | DReading _ => true
  end.

(** How the start of [run] ends: connected, with the device to loop on,
    or given up, with the device if one was made. *)
Inductive startup_result (D : Type) :=
| Connected (d : D)
| GaveUp (d : option D).
Arguments Connected {D} d.
Arguments GaveUp {D} d.

Section RunStartup.
Context {D : Type} `{!Device D} `{!Factory D}.

(** [run] up to "entering loop": make the device, send it the connect
    request, and put one message on the settings queue. *)
Definition startup (is_ocean is_andor is_spi is_ble : bool)
  : M Startup (startup_result D) :=
  let made :=
    match connecting_class is_ocean is_andor is_spi is_ble with
    | Returned connecting_class => instantiate connecting_class
    | Raised e => Raised e
    | Spinning => Spinning
    end in
  match made with
  | Raised _ => settings_put MsgNone;; mret (GaveUp None)
  | Spinning => spin
  | Returned connected_device =>
      let req := {| cmd := "connect"; args := [] |} in
      let exception_while_connecting :=
        {| data := DNone; error_msg := "exception while connecting";
           keep_alive := false; poison_pill := false |} in
      match handle_requests [req] connected_device with
      | (Spinning, _) => spin
      | (Raised _, d) =>
          settings_put_nowait (MsgResponse exception_while_connecting);;
          mret (GaveUp (Some d))
      | (Returned [Response ok], d) =>
          if truthy (data ok)
          then settings_put_nowait MsgSettings;; mret (Connected d)
          else settings_put_nowait (MsgResponse ok);; mret (GaveUp (Some d))
      | (Returned [Naked _], d) => raise AttributeError
      | (Returned _, d) =>
          settings_put_nowait (MsgResponse exception_while_connecting);;
          mret (GaveUp (Some d))
      end
  end.

(** The worker as [run] enters its loop, around the connected device and
    the thread's two queues. *)
Definition entering_loop (command_queue0 : list item)
    (response_queue0 : list SpectrometerResponse) (response_maxsize0 : nat)
    (d : D) : Worker D :=
  {| command_queue := command_queue0;
     response_queue := response_queue0;
     response_maxsize := response_maxsize0;
     connected_device := d;
     num_connected_devices := VInt 1;
     thread_timeout_sec := VInt 10;
     received_poison_pill_command := false;
     sent_good := false;
     naps := [] |}.

(** [run]: the start, then the loop for at most [cycles] passes.  With
    the outcome come the settings queue and, once the loop was entered,
    the worker as the loop left it. *)
Definition run (cycles : nat) (is_ocean is_andor is_spi is_ble : bool)
    (command_queue0 : list item)
    (response_queue0 : list SpectrometerResponse) (response_maxsize0 : nat)
    (st : Startup) : outcome () * Startup * option (Worker D) :=
  match startup is_ocean is_andor is_spi is_ble st with
  | (Returned (Connected d), st') =>
      let '(o, w) :=
        run_loop cycles
          (entering_loop command_queue0 response_queue0 response_maxsize0 d)
      in (o, st', Some w)
  | (Returned (GaveUp _), st') => (Returned (), st', None)
  | (Raised e, st') => (Raised e, st', None)
  | (Spinning, st') => (Spinning, st', None)
  end.

End RunStartup.

(** ** What a worker body does to the response queue *)

(** [w'] has the response queue of [w], or that queue with one more
    response at its end - and then [w]'s queue was not full. *)
Definition one_response_at_most {D} (w w' : Worker D) : Prop :=
  response_maxsize w' = response_maxsize w
  ∧ (response_queue w' = response_queue w
     ∨ ∃ r, response_queue w' = response_queue w ++ [r]
            ∧ @full D w = false).

(** A worker body that leaves the response queue alone. *)
Definition keeps_responses {D A} (m : M (Worker D) A) : Prop :=
  ∀ w, response_maxsize (m w).2 = response_maxsize w
       ∧ response_queue (m w).2 = response_queue w.

(** A worker body that puts at most one response. *)
Definition puts_one_at_most {D A} (m : M (Worker D) A) : Prop :=
  ∀ w, one_response_at_most w (m w).2.

(** ** Frames and pixels, for the further properties *)

(** The pixel held by a two-byte buffer, high byte first. *)
Definition decode (SPIBuf : list Z) : Z :=
  (Z.shiftl (SPIBuf !!! 0%nat) 8 + SPIBuf !!! 1%nat)%Z.

(** The 70-byte write frame of a page payload and the commit frame of a
    page. *)
Definition write_frame (write_array : list Z) : list Z :=
  [0x3C; 0x00; 0x41; 0xB1]%Z ++ take 64 write_array ++ [0xFF; 0x3E]%Z.
Definition commit_frame (page : Z) : list Z :=
  [0x3C; 0x00; 0x02; 0xB0; 0x80 + page; 0xFF; 0x3E]%Z.

(** The 8-byte frame that writes the 16-bit [v] to the register at
    [address], low byte first. *)
Definition register_frame (address v : Z) : list Z :=
  [0x3C; 0x00; 0x03; address + 0x80; v `mod` 256; v `div` 256;
   0xFF; 0x3E]%Z.

(** The frames [write_eeprom] sends for [page]: the write frame of its
    buffer and its commit frame. *)
Definition page_write_frames (write_buffers : list (list Z)) (page : nat)
  : list (list Z) :=
  match write_buffers !! page with
  | Some write_array => [write_frame write_array; commit_frame (Z.of_nat page)]
  | None => []
  end.

(** A method body that leaves the [acquiring] flag as it finds it. *)
Definition keeps_acquiring {H A} (m : M (SPIDevice H) A) : Prop :=
  ∀ self, acquiring (m self).2 = acquiring self.

(** ** Fixtures to run the model on *)

(** A device that answers every request with [True] and keeps the list of
    the requests it was given. *)
Definition Recorder : Device (list SpectrometerRequest) :=
  {| handle_requests := λ requests d,
       (Returned ((λ _, Response (respond (DBool true))) <$> requests),
        d ++ requests) |}.

(** A bench in place of the FT232H: the ready line gives its scripted
    samples ([None]: the USB link fails on that sample) and is low once
    the script is used up; every read is answered by the next scripted
    chunk; writes and the trigger line always succeed. *)
Record Bench := { ready_script : list (option bool); miso : list (list Z) }.

Definition Bench_ready (b : Bench) : outcome bool * Bench :=
  match ready_script b with
  | [] => (Returned false, b)
  | Some v :: script => (Returned v, {| ready_script := script; miso := miso b |})
  | None :: script =>
      (Raised USBError, {| ready_script := script; miso := miso b |})
  end.

Definition Bench_read (b : Bench) : outcome (list Z) * Bench :=
  match miso b with
  | [] => (Returned [], b)
  | chunk :: chunks =>
      (Returned chunk, {| ready_script := ready_script b; miso := chunks |})
  end.

#[global] Instance Bench_hardware : Hardware Bench :=
  {| ready_value := Bench_ready;
     trigger_set := λ _ b, (Returned (), b);
     SPI_readinto := λ _ b, Bench_read b;
     SPI_write := λ _ b, (Returned (), b);
     SPI_write_readinto := λ _ _ b, Bench_read b |}.

(** A codec of 8 pages that stores the pages it is given. *)
Definition Bench_codec : EEPROMCodec :=
  {| MAX_PAGES := 8;
     parse := λ pages e,
       (Returned (),
        {| EEPROM.active_pixels_horizontal := EEPROM.active_pixels_horizontal e;
           EEPROM.write_buffers := EEPROM.write_buffers e;
           EEPROM.buffers := pages |});
     generate_write_buffers := λ e, (Returned (), e) |}.

(** A session as [__init__] leaves it (the set-up of the bus is not
    replayed), averaging over [scans] acquisitions, on the hardware [h]. *)
Definition fresh_device {H} (scans : Z) (h : H) : SPIDevice H :=
  {| disconnect := false; acquiring := false;
     settings :=
       {| Settings.eeprom :=
            {| EEPROM.active_pixels_horizontal := 0;
               EEPROM.write_buffers := [];
               EEPROM.buffers := [] |};
          Settings.state :=
            {| State.integration_time_ms := VInt 0;
               State.scans_to_average := scans;
               State.laser_power_perc := VInt 100;
               State.laser_power_mW := VInt 0;
               State.laser_enabled := VBool false |} |};
     summed_spectra := None; sum_count := 0;
     session_reading_count := 0; failure_count := 0;
     lambdas := init_lambdas; hw := h; trace := [] |}.

(** A dispatcher for the bench, in place of the [handle_requests] of a
    device class: it passes an [acquire_data] request on to the session's
    method and wraps what the method returns in a response, and answers
    any other request with [True]. *)
Fixpoint Forwarder_requests {H} `{!Hardware H} `{!EEPROMCodec} (fuel : nat)
    (requests : list SpectrometerRequest) : M (SPIDevice H) (list reply) :=
  match requests with
  | [] => mret []
  | req :: requests' =>
      d ← (if decide (cmd req = "acquire_data") then acquire_data fuel
           else mret (DBool true));
      rs ← Forwarder_requests fuel requests';
      mret (Response (respond d) :: rs)
  end.

Definition Forwarder {H} `{!Hardware H} `{!EEPROMCodec} (fuel : nat)
  : Device (SPIDevice H) :=
  {| handle_requests := Forwarder_requests fuel |}.

(** A factory for the recording device: every class gives a device that
    has seen no request yet. *)
Definition Recorder_factory : Factory (list SpectrometerRequest) :=
  {| instantiate := λ _, Returned [] |}.

(** A device whose connect fails: it answers every request with
    [False]. *)
Definition Refuser : Device () :=
  {| handle_requests := λ requests d,
       (Returned ((λ _, Response (respond (DBool false))) <$> requests), d) |}.

Definition Refuser_factory : Factory () :=
  {| instantiate := λ _, Returned () |}.

(** A starting thread with an empty, unbounded settings queue. *)
Definition bench_startup : Startup :=
  {| settings_queue := []; settings_maxsize := 0 |}.

(** Hardware whose ready line follows a script of samples (low once the
    script is used up) and whose every read delivers the bytes 0x12,
    0x34. *)
Record Steady := { steady_ready : list bool }.

#[global] Instance Steady_hardware : Hardware Steady :=
  {| ready_value := λ h,
       match steady_ready h with
       | [] => (Returned false, h)
       | b :: script => (Returned b, {| steady_ready := script |})
       end;
     trigger_set := λ _ h, (Returned (), h);
     SPI_readinto := λ _ h, (Returned [0x12; 0x34]%Z, h);
     SPI_write := λ _ h, (Returned (), h);
     SPI_write_readinto := λ _ _ h, (Returned [], h) |}.

(** A codec whose rendering of the write buffers fails. *)
Definition Failing_codec : EEPROMCodec :=
  {| MAX_PAGES := 8;
     parse := λ _ e, (Raised OtherError, e);
     generate_write_buffers := λ e, (Raised OtherError, e) |}.

(** The fresh session with [count] rendered write buffers of 64 bytes
    each. *)
Definition device_with_buffers {H} (count : nat) (h : H) : SPIDevice H :=
  set_settings
    {| Settings.eeprom :=
         {| EEPROM.active_pixels_horizontal := 0;
            EEPROM.write_buffers :=
              (λ page, replicate 64 (Z.of_nat page)) <$> seq 0 count;
            EEPROM.buffers := [] |};
       Settings.state := Settings.state (settings (fresh_device 1 h)) |}
    (fresh_device 1 h).

(** A bench for three acquisitions of one pixel each: 1, 2, 3. *)
Definition bench_three_pixels : Bench :=
  {| ready_script := [Some true; Some true; Some false;
                      Some true; Some true; Some false;
                      Some true; Some true; Some false];
     miso := [[0x00; 0x01]; [0x00; 0x02]; [0x00; 0x03]]%Z |}.

(** The Reading of a one-pixel acquisition on a fresh session, with its
    two counts. *)
Definition bench_reading (pixel session_count sum_count : Z) : Reading.t :=
  {| Reading.integration_time_ms := VInt 0;
     Reading.laser_power_perc := VInt 100;
     Reading.laser_power_mW := VInt 0;
     Reading.laser_enabled := VBool false;
     Reading.spectrum := Some [pixel];
     Reading.session_count := session_count;
     Reading.sum_count := sum_count;
     Reading.summed_spectra := None;
     Reading.failure := None |}.

(** Hardware whose ready line is stuck at the level [b]: the bus takes
    every frame and every read of [n] bytes gives [n] zero bytes. *)
Inductive Stuck (b : bool) := stuck.
Arguments stuck {b}.

#[global] Instance Stuck_hardware b : Hardware (Stuck b) :=
  {| ready_value := λ h, (Returned b, h);
     trigger_set := λ _ h, (Returned (), h);
     SPI_readinto := λ n h, (Returned (replicate n 0%Z), h);
     SPI_write := λ _ h, (Returned (), h);
     SPI_write_readinto := λ _ n h, (Returned (replicate n 0%Z), h) |}.

(** A byte value. *)
Definition is_byte (v : Z) : Prop := (0 ≤ v < 256)%Z.

#[global] Instance is_byte_dec v : Decision (is_byte v).
Proof. unfold is_byte. apply _. Defined.

(** A bench whose ready line is never high and whose reads give nothing. *)
Definition bench_idle : Bench := {| ready_script := []; miso := [] |}.

(** A bench for two acquisitions of one pixel each: 0x1234, then 0x0001. *)
Definition bench_two_pixels : Bench :=
  {| ready_script := [Some true; Some true; Some false;
                      Some true; Some true; Some false];
     miso := [[0x12; 0x34]; [0x00; 0x01]]%Z |}.

(** A bench whose USB link fails on the first sample of the ready line. *)
Definition bench_usb_fault : Bench := {| ready_script := [None]; miso := [] |}.

(** Page [i] of the bench EEPROM: 74 bytes with the marker [i + 1] at
    offset 9. *)
Definition marked_page (i : nat) : list Z :=
  replicate 9 0%Z ++ [(Z.of_nat i + 1)%Z] ++ replicate 64 0%Z.

(** A bench with a quiet ready line that answers the eight page reads. *)
Definition bench_pages : Bench :=
  {| ready_script := []; miso := marked_page <$> seq 0 8 |}.


(** A worker in its steady state, with empty queues, around [d]. *)
Definition bench_worker {D} (d : D) : Worker D :=
  {| command_queue := []; response_queue := []; response_maxsize := 0;
     connected_device := d; num_connected_devices := VInt 1;
     thread_timeout_sec := VInt 10;
     received_poison_pill_command := false; sent_good := false;
     naps := [] |}.

(** * Properties *)

(** ** Running method bodies *)

Lemma bind_run {S A B} (m : M S A) (f : A → M S B) (s : S) :
  (m ≫= f) s
  = match m s with
    | (Returned a, s') => f a s'
    | (Raised e, s') => (Raised e, s')
    | (Spinning, s') => (Spinning, s')
    end.
Proof. reflexivity. Qed.

Lemma try_except_run {S A} (body : M S A) catches handler (s : S) :
  try_except body catches handler s
  = match body s with
    | (Raised e, s') => if catches e then handler e s' else (Raised e, s')
    | r => r
    end.
Proof. reflexivity. Qed.

Lemma bind_Returned_inv {S A B} (m : M S A) (f : A → M S B) s b s' :
  (m ≫= f) s = (Returned b, s') →
  ∃ a s1, m s = (Returned a, s1) ∧ f a s1 = (Returned b, s').
Proof.
  rewrite bind_run. destruct (m s) as [[a| |] s1]; [|done..]. eauto.
Qed.

(** ** dedupe *)

Lemma remove_previous_spec name (keep new_keep : list item) :
  Forall is_Some keep →
  remove_previous name keep new_keep
  = Returned (new_keep ++ filter (λ x, item_setting x ≠ name) keep).
Proof.
  intros Hkeep. revert new_keep.
  induction Hkeep as [|x keep [co ->] _ IH]; intros new_keep; simpl.
  - by rewrite app_nil_r.
  - destruct (decide (Some (setting co) = name)).
    + rewrite filter_cons_False by (simpl; tauto). apply IH.
    + rewrite filter_cons_True by done. rewrite IH. by rewrite <- app_assoc.
Qed.

Lemma pill_only_last_cons x q : pill_only_last (x :: q) → pill_only_last q.
Proof.
  intros Hq i Hi. specialize (Hq (S i) Hi). simpl in Hq. lia.
Qed.

Lemma pill_only_last_head q : pill_only_last (None :: q) → q = [].
Proof.
  intros Hq. specialize (Hq 0%nat eq_refl). simpl in Hq.
  destruct q; [done | simpl in Hq; lia].
Qed.

Lemma filter_all_Some (P : item → Prop) `{!∀ x, Decision (P x)}
    (keep : list item) :
  Forall is_Some keep → (∀ co, P (Some co)) → filter P keep = keep.
Proof.
  intros Hkeep HP. induction Hkeep as [|x keep [co ->] _ IH]; [done|].
  rewrite filter_cons_True by done. by rewrite IH.
Qed.

(** The loop invariant of [dedupe]: what is kept so far loses the names
    still to come, and the rest of the queue adds its last occurrences. *)
Lemma dedupe_loop_spec q keep :
  pill_only_last q → Forall is_Some keep →
  dedupe_loop q keep
  = (Returned (filter (λ x, item_setting x ∉ item_setting <$> q) keep
               ++ keep_last q), []).
Proof.
  revert keep. induction q as [|x q IH]; intros keep Hq Hkeep; simpl.
  - rewrite app_nil_r. f_equal. f_equal. symmetry.
    induction keep as [|y keep IHk]; [done|].
    rewrite filter_cons_True by apply not_elem_of_nil.
    f_equal. apply IHk. by inversion Hkeep.
  - rewrite remove_previous_spec by done. simpl.
    destruct x as [co|].
    + rewrite IH; [|by eapply pill_only_last_cons|].
      2:{ apply Forall_app. split; [|by repeat constructor; eauto].
          apply Forall_forall. intros y Hy. apply list_elem_of_filter in Hy.
          rewrite Forall_forall in Hkeep. apply Hkeep, Hy. }
      f_equal. f_equal. rewrite filter_app, list_filter_filter.
      rewrite <- app_assoc. f_equal.
      * apply list_filter_iff. intros y. rewrite elem_of_cons. simpl. tauto.
      * case_decide.
        -- by rewrite filter_cons_False by (simpl; tauto).
        -- by rewrite filter_cons_True by done.
    + apply pill_only_last_head in Hq. subst q.
      assert (∀ co, item_setting (Some co) ∉ [item_setting None]) as Hne
        by (intros co; cbn; rewrite list_elem_of_singleton; done).
      rewrite !filter_all_Some by done.
      cbn [dedupe_loop keep_last fmap list_fmap].
      by rewrite decide_False by (apply not_elem_of_nil).
Qed.

Lemma keep_last_names q :
  item_setting <$> keep_last q = last_occurrences (item_setting <$> q).
Proof.
  induction q as [|x q IH]; [done|]. cbn [keep_last last_occurrences fmap list_fmap].
  case_decide; [done|]. cbn. by f_equal.
Qed.

Lemma last_occurrences_elem_of {A} `{EqDecision A} (l : list A) x :
  x ∈ last_occurrences l → x ∈ l.
Proof.
  induction l as [|y l IH]; [done|]. simpl. case_decide.
  - intros Hx. right. by apply IH.
  - rewrite !elem_of_cons. intros [->|Hx]; [by left | right; by apply IH].
Qed.

Lemma last_occurrences_NoDup {A} `{EqDecision A} (l : list A) :
  NoDup (last_occurrences l).
Proof.
  induction l as [|y l IH]; simpl; [constructor|]. case_decide; [done|].
  constructor; [|done]. intros Hy. by apply last_occurrences_elem_of in Hy.
Qed.

Lemma keep_last_elem_of q x : x ∈ keep_last q → x ∈ q.
Proof.
  induction q as [|y q IH]; [done|]. simpl. case_decide.
  - intros Hx. right. by apply IH.
  - rewrite !elem_of_cons. intros [->|Hx]; [by left | right; by apply IH].
Qed.

Lemma keep_last_last_enqueued q x :
  x ∈ keep_last q → last_enqueued (item_setting x) q = Some x.
Proof.
  unfold last_enqueued. induction q as [|y q IH]; [by intros ?%elem_of_nil|].
  cbn [keep_last]. intros Hx.
  assert (x ∈ keep_last q →
          last (filter (λ z, item_setting z = item_setting x) (y :: q))
          = Some x) as Hrest.
  { intros Hin. specialize (IH Hin).
    destruct (decide (item_setting y = item_setting x)).
    - rewrite filter_cons_True by done. rewrite last_cons. by rewrite IH.
    - by rewrite filter_cons_False by done. }
  case_decide as Hy; [by apply Hrest|].
  apply elem_of_cons in Hx as [->|Hx]; [|by apply Hrest].
  rewrite filter_cons_True by done.
  destruct (filter (λ z, item_setting z = item_setting y) q)
    as [|z rest] eqn:Hf; [done|].
  assert (z ∈ filter (λ z, item_setting z = item_setting y) q) as Hz
    by (rewrite Hf; by left).
  apply list_elem_of_filter in Hz as [Heq Hz]. destruct Hy.
  rewrite <- Heq. by apply list_elem_of_fmap_2.
Qed.

(** C1 (as amended): for every batch in which no poison pill is followed
    by another item - in particular every batch of setting commands -
    [dedupe] empties the queue and returns one entry per setting name, the
    one enqueued last under that name, the names in the order of their
    last occurrences in the batch. *)
Theorem dedupe_last_occurrence_order (q : list item) :
  pill_only_last q →
  ∃ keep, dedupe q = (Returned keep, [])
          ∧ deduped_in last_occurrences q keep.
Proof.
  intros Hq. exists (keep_last q). split.
  - unfold dedupe. by rewrite dedupe_loop_spec.
  - split; [|split].
    + rewrite keep_last_names. apply last_occurrences_NoDup.
    + apply keep_last_last_enqueued.
    + apply keep_last_names.
Qed.

Lemma dedupe_last_occurrence_order_witness :
  let q := [Some {| setting := "a"; value := VInt 1 |};
            Some {| setting := "b"; value := VInt 2 |};
            Some {| setting := "a"; value := VInt 3 |};
            None] in
  pill_only_last q
  ∧ ∃ keep, dedupe q = (Returned keep, [])
            ∧ deduped_in last_occurrences q keep.
Proof.
  intros q.
  assert (pill_only_last q) as Hq.
  { intros i. do 4 (destruct i as [|i]; [by simpl|]). by simpl. }
  split; [exact Hq|]. exact (dedupe_last_occurrence_order q Hq).
Defined.

(** C1 (as stated) fails: on the batch a=1, b=2, a=3 the result is
    b=2, a=3, so the names do not come in the order of their first
    occurrences. *)
Lemma dedupe_not_first_occurrence_order :
  let q := [Some {| setting := "a"; value := VInt 1 |};
            Some {| setting := "b"; value := VInt 2 |};
            Some {| setting := "a"; value := VInt 3 |}] in
  dedupe q = (Returned [Some {| setting := "b"; value := VInt 2 |};
                        Some {| setting := "a"; value := VInt 3 |}], [])
  ∧ ¬ ∃ keep, dedupe q = (Returned keep, [])
              ∧ deduped_in first_occurrences q keep.
Proof.
  intros q. split; [reflexivity|].
  intros (keep & Hd & _ & _ & Horder).
  vm_compute in Hd. injection Hd as <-. vm_compute in Horder. discriminate.
Qed.

(** ** The worker loop and the poison pill *)

(** C2: a batch in which the poison pill is followed by another item makes
    [dedupe] raise AttributeError (it reads [co.setting] on the kept
    [None]); the cycle ends with that exception, whatever the device, and
    nothing of the batch is applied. *)
Theorem cycle_pill_before_item_raises {D} `{!Device D}
    (w : Worker D) (x : item) (rest : list item) :
  dedupe (None :: x :: rest) = (Raised AttributeError, rest)
  ∧ cycle (set_command_queue (None :: x :: rest) w)
    = (Raised AttributeError, set_command_queue rest w).
Proof. split; reflexivity. Qed.

(** The scenario of the spec: laser on, laser off, STOP.  Only
    [laser_enabled = 0] reaches the device, then the loop exits. *)
Lemma cycle_laser_off_then_stop (w : Worker (list SpectrometerRequest)) :
  let on := {| setting := "laser_enabled"; value := VInt 1 |} in
  let off := {| setting := "laser_enabled"; value := VInt 0 |} in
  @cycle _ Recorder (set_command_queue [Some on; Some off; None] w)
  = (Returned Break,
     set_received_poison_pill_command true
       (set_connected_device
          (connected_device w
           ++ [{| cmd := "laser_enabled"; args := [VInt 0] |}])
          (set_command_queue [] w))).
Proof. reflexivity. Qed.

Lemma keep_last_pill q : None ∈ q → None ∈ keep_last q.
Proof.
  induction q as [|x q IH]; [done|]. intros Hin. simpl. case_decide as Hx.
  - apply IH. apply elem_of_cons in Hin as [<-|Hin]; [|done].
    apply list_elem_of_fmap in Hx as ([co|] & Hy & Hin); [done|done].
  - apply elem_of_cons in Hin as [<-|Hin]; [by left|]. right. by apply IH.
Qed.

(** On the recording device every record of a deduped batch is applied,
    in order, whatever the place of the poison pill in it. *)
Lemma for_each_apply_record_Recorder records
    (w : Worker (list SpectrometerRequest)) :
  ∃ w', @for_each _ _ records (@apply_record _ Recorder) w = (Returned (), w')
        ∧ connected_device w'
          = connected_device w ++ (request_of <$> commands records)
        ∧ received_poison_pill_command w'
          = received_poison_pill_command w || bool_decide (None ∈ records)
        ∧ response_queue w' = response_queue w
        ∧ command_queue w' = command_queue w.
Proof.
  revert w. induction records as [|[co|] records IH]; intros w.
  - exists w. rewrite app_nil_r, orb_false_r. by repeat split.
  - cbn [for_each]. rewrite bind_run.
    assert (∃ w1, @apply_record _ Recorder (Some co) w = (Returned (), w1)
                  ∧ connected_device w1 = connected_device w ++ [request_of co]
                  ∧ received_poison_pill_command w1
                    = received_poison_pill_command w
                  ∧ response_queue w1 = response_queue w
                  ∧ command_queue w1 = command_queue w)
      as (w1 & -> & Hd & Hp & Hr & Hq).
    { unfold apply_record. rewrite bind_run. cbn.
      repeat case_decide; eexists; by repeat split. }
    destruct (IH w1) as (w' & -> & Hd' & Hp' & Hr' & Hq').
    exists w'. split; [done|]. rewrite Hd', Hp', Hr', Hq', Hd, Hp.
    repeat split; try done.
    + cbn. by rewrite <- app_assoc.
    + f_equal. apply bool_decide_ext. rewrite elem_of_cons.
      split; [by right | by intros [|]].
  - cbn [for_each]. rewrite bind_run. cbn.
    destruct (IH (set_received_poison_pill_command true w))
      as (w' & -> & Hd' & Hp' & Hr' & Hq').
    exists w'. split; [done|]. rewrite Hd', Hp', Hr', Hq'. cbn.
    repeat split. rewrite bool_decide_eq_true_2 by (by left).
    by rewrite orb_true_r.
Qed.

(** Where the poison pill is the last item of the batch, the cycle
    applies every surviving command, in order, and exits before the
    acquisition: the device is given nothing else and nothing is
    published. *)
Lemma cycle_pill_last_Recorder (q : list item)
    (w : Worker (list SpectrometerRequest)) :
  pill_only_last q → None ∈ q →
  ∃ w', @cycle _ Recorder (set_command_queue q w) = (Returned Break, w')
        ∧ connected_device w'
          = connected_device w ++ (request_of <$> commands (keep_last q))
        ∧ response_queue w' = response_queue w
        ∧ command_queue w' = [].
Proof.
  intros Hq Hpill. unfold cycle, apply_commands.
  rewrite !bind_run. unfold drain_and_dedupe. cbn [command_queue set_command_queue].
  unfold dedupe. rewrite dedupe_loop_spec by done. cbn [filter list_filter app].
  destruct (for_each_apply_record_Recorder (keep_last q)
              (set_command_queue [] (set_command_queue q w)))
    as (w' & -> & Hd & Hp & Hr & Hc).
  rewrite bind_run. unfold get at 1. rewrite Hp.
  rewrite (bool_decide_eq_true_2 _ (keep_last_pill q Hpill)), orb_true_r.
  exists w'. by repeat split.
Qed.

(** ** SPIDevice methods on a page and on the flags *)

Section MethodProperties.
Context {H : Type} `{!Hardware H} `{!EEPROMCodec}.
Local Open Scope Z_scope.
Implicit Type self : SPIDevice H.

Lemma hw_op_Returned {A} (op : H → outcome A * H) ev self a h :
  op (hw self) = (Returned a, h) →
  hw_op op ev self
  = (Returned a, set_trace (trace self ++ [ev a]) (set_hw h self)).
Proof. intros Hop. unfold hw_op. by rewrite Hop. Qed.

Lemma hw_op_Raised {A} (op : H → outcome A * H) ev self e h :
  op (hw self) = (Raised e, h) →
  hw_op op ev self
  = (Raised e, set_trace (trace self ++ [EvFault e]) (set_hw h self)).
Proof. intros Hop. unfold hw_op. by rewrite Hop. Qed.

(** *** EEPROMWritePage *)

Lemma setitem_run buf (i : nat) v self :
  (i < length buf)%nat → is_byte v →
  setitem buf i v self = (Returned (<[i := v]> buf), self).
Proof.
  intros Hi Hv. unfold setitem.
  rewrite bool_decide_eq_true_2 by done.
  by rewrite bool_decide_eq_true_2 by done.
Qed.

(** The copy loop from index [k] on: [n] payload bytes land at offset
    [k + 4]. *)
Lemma copy_payload_run (n k : nat) write_array buf self :
  (k + n ≤ length write_array)%nat → (k + 4 + n ≤ length buf)%nat →
  Forall is_byte write_array →
  copy_payload (seq k n) write_array buf self
  = (Returned (take (k + 4) buf ++ take n (drop k write_array)
               ++ drop (k + 4 + n) buf), self).
Proof.
  revert k buf. induction n as [|n IH]; intros k buf Hwa Hbuf Hbytes.
  - simpl. rewrite Nat.add_0_r. by rewrite take_drop.
  - cbn [seq copy_payload].
    destruct (lookup_lt_is_Some_2 write_array k) as [v Hv]; [lia|].
    rewrite Hv, bind_run, setitem_run; [|lia|].
    2:{ rewrite Forall_forall in Hbytes. apply Hbytes.
        by eapply list_elem_of_lookup_2. }
    rewrite IH by (rewrite ?length_insert; lia || done).
    f_equal. f_equal.
    rewrite (drop_S write_array v k Hv). cbn [take].
    replace (S k + 4)%nat with (S (k + 4)) by lia.
    rewrite (take_S_r (<[(k + 4)%nat := v]> buf) (k + 4) v)
      by (apply list_lookup_insert_eq; lia).
    rewrite take_insert_ge by lia.
    rewrite drop_insert_lt by lia.
    rewrite <- app_assoc. simpl. replace (k + 4 + S n)%nat with (S (k + 4 + n)) by lia. done.
Qed.

(** The command buffer once the trailer is stored, cut to 70 bytes. *)
Lemma write_buffer_sent (payload : list Z) :
  length payload = 64%nat →
  let buf := [0x3C; 0x00; 0x41; 0xB1] ++ payload ++ [0; 0; 0] in
  length buf = 71%nat
  ∧ slice (<[69%nat := 0x3E]> (<[68%nat := 0xFF]> buf)) 0 70
    = [0x3C; 0x00; 0x41; 0xB1] ++ payload ++ [0xFF; 0x3E].
Proof.
  intros Hlen buf. split; [unfold buf; rewrite !length_app; simpl; lia|].
  unfold buf, slice. rewrite drop_0.
  rewrite (insert_app_r_alt _ _ 68) by (simpl; lia).
  rewrite (insert_app_r_alt _ _ (68 - _)) by (simpl; lia).
  rewrite (insert_app_r_alt _ _ 69) by (simpl; lia).
  rewrite (insert_app_r_alt _ _ (69 - _)) by (simpl; lia).
  rewrite Hlen. cbn [length Nat.sub].
  rewrite take_app_ge by (simpl; lia).
  rewrite take_app_ge by (simpl; lia).
  rewrite Hlen. reflexivity.
Qed.

(** C3: for every page and every payload of at least 64 bytes, on a bus
    that accepts the two writes, [EEPROMWritePage] sends one 70-byte frame
    (header 3C 00 41 B1, the first 64 payload bytes at offsets 4..67,
    trailer FF 3E at 68..69), then the 7-byte commit frame with opcode B0
    and address 0x80 + page, then sleeps 100 ms; nothing else happens. *)
Theorem EEPROMWritePage_frames (page : Z) (write_array : list Z) self h1 h2 :
  let frame := [0x3C; 0x00; 0x41; 0xB1] ++ take 64 write_array
               ++ [0xFF; 0x3E] in
  let commit := [0x3C; 0x00; 0x02; 0xB0; 0x80 + page; 0xFF; 0x3E] in
  (64 ≤ length write_array)%nat →
  Forall is_byte write_array →
  SPI_write frame (hw self) = (Returned (), h1) →
  SPI_write commit h1 = (Returned (), h2) →
  length frame = 70%nat
  ∧ frame !! 68%nat = Some 0xFF ∧ frame !! 69%nat = Some 0x3E
  ∧ (∀ x, (x < 64)%nat → frame !! (x + 4)%nat = write_array !! x)
  ∧ EEPROMWritePage page write_array self
    = (Returned (),
       set_trace (trace self ++ [EvWrite frame; EvWrite commit; EvSleep 100])
         (set_hw h2 self)).
Proof.
  intros frame commit Hlen Hbytes Hw1 Hw2.
  assert (length (take 64 write_array) = 64%nat) as Htake
    by (rewrite length_take; lia).
  split; [|split; [|split; [|split]]].
  - unfold frame. rewrite !length_app, Htake. done.
  - unfold frame. rewrite lookup_app_r by (simpl; lia).
    rewrite lookup_app_r by (simpl; lia). by rewrite Htake.
  - unfold frame. rewrite lookup_app_r by (simpl; lia).
    rewrite lookup_app_r by (simpl; lia). by rewrite Htake.
  - intros x Hx. unfold frame.
    rewrite lookup_app_r by (simpl; lia).
    rewrite lookup_app_l by (simpl; lia).
    rewrite lookup_take_lt by (simpl; lia). f_equal. simpl. lia.
  - unfold EEPROMWritePage.
    rewrite bind_run, try_except_run.
    rewrite (copy_payload_run 64 0) by (done || simpl; lia).
    change (take (0 + 4) (slice_assign (bytearray 70) 0 3 [60; 0; 65; 177]))
      with [0x3C; 0x00; 0x41; 0xB1].
    change (drop (0 + 4 + 64)
              (slice_assign (bytearray 70) 0 3 [60; 0; 65; 177]))
      with [0; 0; 0].
    rewrite drop_0.
    destruct (write_buffer_sent (take 64 write_array) Htake) as [Hl Hsent].
    cbv zeta in Hl.
    rewrite bind_run, setitem_run by (unfold is_byte; lia).
    rewrite bind_run, setitem_run
      by (unfold is_byte; rewrite ?length_insert; lia).
    rewrite bind_run. unfold bus_write at 1. rewrite Hsent.
    rewrite (hw_op_Returned _ _ _ () h1) by exact Hw1.
    rewrite bind_run. unfold bus_write.
    change (slice [60; 0; 2; 176; 128 + page; 255; 62] 0 7) with commit.
    rewrite (hw_op_Returned _ _ _ () h2) by exact Hw2.
    unfold sleep, log, modify. destruct self. cbn.
    by rewrite <- !app_assoc.
Qed.

(** The copy loop raises, with the object untouched, as soon as one of its
    indices is missing in the payload. *)
Lemma copy_payload_short (xs : list nat) write_array buf self :
  (∃ x, x ∈ xs ∧ (length write_array ≤ x)%nat) →
  ∃ e, copy_payload xs write_array buf self = (Raised e, self)
       ∧ (Forall is_byte write_array → e = IndexError).
Proof.
  revert buf. induction xs as [|x xs IH]; intros buf (y & Hy & Hshort).
  - by apply elem_of_nil in Hy.
  - cbn [copy_payload]. destruct (write_array !! x) as [v|] eqn:Hv.
    + rewrite bind_run. unfold setitem.
      case_bool_decide; [|by exists IndexError].
      case_bool_decide as Hbyte.
      * cbn. apply IH. exists y. split; [|done].
        apply elem_of_cons in Hy as [->|Hy]; [|done].
        apply lookup_lt_Some in Hv. lia.
      * exists ValueError. split; [done|]. intros Hbytes.
        rewrite Forall_forall in Hbytes. destruct Hbyte.
        apply Hbytes. by eapply list_elem_of_lookup_2.
    + by exists IndexError.
Qed.

(** C7: a payload shorter than 64 bytes makes [EEPROMWritePage] raise
    (IndexError, the page-write error of the spec) with the object, its
    hardware and its trace untouched: no frame, no commit frame and no
    settle delay. *)
Theorem EEPROMWritePage_short_payload (page : Z) (write_array : list Z) self :
  (length write_array < 64)%nat →
  ∃ e, EEPROMWritePage page write_array self = (Raised e, self)
       ∧ (Forall is_byte write_array → e = IndexError).
Proof.
  intros Hshort. unfold EEPROMWritePage.
  rewrite bind_run, try_except_run.
  destruct (copy_payload_short (seq 0 64) write_array
              (slice_assign (bytearray 70) 0 3 [0x3C; 0x00; 0x41; 0xB1]) self)
    as (e & -> & He).
  - exists (length write_array). split; [|done].
    apply elem_of_seq. lia.
  - by exists e.
Qed.

(** *** acquire_data with the disconnect flag set *)

(** C8: an acquisition started with the disconnect flag set returns
    [False] at once and leaves the whole object as it was: no bus
    transaction, no change of the trigger line, the same
    [session_reading_count]. *)
Theorem acquire_data_disconnected (fuel : nat) self :
  disconnect self = true →
  acquire_data fuel self = (Returned (DBool false), self)
  ∧ Acquire fuel self = (Returned AcqFalse, self).
Proof.
  intros Hd. unfold acquire_data, Acquire.
  rewrite !bind_run. unfold get. by rewrite Hd.
Qed.

(** *** change_setting with a name outside the table *)

Lemma init_lambdas_None (setting : string) :
  setting ≠ "integration_time_ms" → setting ≠ "write_eeprom" →
  setting ≠ "replace_eeprom" →
  init_lambdas !! setting = None.
Proof.
  intros H1 H2 H3. unfold init_lambdas.
  rewrite !lookup_insert_ne by done. apply lookup_empty.
Qed.

(** C10: for a setting name that is none of [integration_time_ms],
    [write_eeprom] and [replace_eeprom], and any value, [change_setting]
    returns [True] and leaves the object, its hardware and its trace as
    they were. *)
Theorem change_setting_unknown (fuel : nat) (setting : string)
    (value : PyVal) self :
  lambdas self = init_lambdas →
  setting ≠ "integration_time_ms" → setting ≠ "write_eeprom" →
  setting ≠ "replace_eeprom" →
  change_setting fuel setting value self = (Returned true, self).
Proof.
  intros Hl H1 H2 H3. unfold change_setting. rewrite bind_run. unfold get.
  by rewrite Hl, init_lambdas_None.
Qed.

(** *** What Acquire leaves alone *)

Lemma session_kept_refl self : session_kept self self.
Proof. by repeat split. Qed.

Lemma session_kept_trans self1 self2 self3 :
  session_kept self1 self2 → session_kept self2 self3 →
  session_kept self1 self3.
Proof.
  unfold session_kept. intros (?&?&?&?&?&?&?) (?&?&?&?&?&?&?).
  repeat split; congruence.
Qed.

Lemma keeps_bind {A B} (m : M (SPIDevice H) A) (f : A → M (SPIDevice H) B) :
  keeps_session m → (∀ a, keeps_session (f a)) → keeps_session (m ≫= f).
Proof.
  intros Hm Hf self. rewrite bind_run. specialize (Hm self).
  destruct (m self) as [[a| |] self1]; simpl in *; [|done|done].
  eapply session_kept_trans; [apply Hm | apply Hf].
Qed.

Lemma keeps_ret {A} (a : A) : @keeps_session H A (mret a).
Proof. intros self. apply session_kept_refl. Qed.

Lemma keeps_spin {A} : @keeps_session H A spin.
Proof. intros self. apply session_kept_refl. Qed.

Lemma keeps_get : @keeps_session H _ get.
Proof. intros self. apply session_kept_refl. Qed.

Lemma keeps_hw_op {A} (op : H → outcome A * H) ev : keeps_session (hw_op op ev).
Proof.
  intros self. unfold hw_op.
  by destruct (op (hw self)) as [[a| |] h].
Qed.

Lemma keeps_set_acquiring b :
  @keeps_session H _ (modify (set_acquiring b)).
Proof. intros self. by repeat split. Qed.

Lemma keeps_bus_readinto buf start end_ :
  keeps_session (bus_readinto buf start end_).
Proof.
  apply keeps_bind; [apply keeps_hw_op | intros; apply keeps_ret].
Qed.

Lemma keeps_wait_ready fuel : keeps_session (wait_ready fuel).
Proof.
  induction fuel as [|fuel IH]; [apply keeps_spin|]. simpl.
  apply keeps_bind; [apply keeps_hw_op|].
  intros [|]; [apply keeps_ret | apply IH].
Qed.

Lemma keeps_read_spectra fuel SPIBuf spectra :
  keeps_session (read_spectra fuel SPIBuf spectra).
Proof.
  revert SPIBuf spectra.
  induction fuel as [|fuel IH]; intros SPIBuf spectra; [apply keeps_spin|].
  simpl. apply keeps_bind; [apply keeps_hw_op|].
  intros [|]; [|apply keeps_ret].
  apply keeps_bind; [apply keeps_bus_readinto | intros; apply IH].
Qed.

Lemma keeps_Acquire fuel : keeps_session (Acquire fuel).
Proof.
  unfold Acquire. apply keeps_bind; [apply keeps_get|]. intros self.
  destruct (disconnect self); [apply keeps_ret|].
  repeat (apply keeps_bind; [|intros]);
    first [apply keeps_set_acquiring | apply keeps_hw_op
          | apply keeps_wait_ready | apply keeps_read_spectra
          | apply keeps_ret].
Qed.

(** *** Averaging *)

Lemma add_spectrum_ok summed spectrum r :
  add_spectrum summed spectrum = (r, true) →
  r = zip_with Z.add summed spectrum
  ∧ (length summed ≤ length spectrum)%nat.
Proof.
  revert spectrum r. induction summed as [|a summed IH]; intros spectrum r.
  - simpl. intros [= <-]. split; [done | lia].
  - destruct spectrum as [|b spectrum]; [done|]. simpl.
    destruct (add_spectrum summed spectrum) as [r' ok] eqn:Hadd.
    intros [= <- ->]. destruct (IH _ _ Hadd) as [-> Hlen].
    split; [done | simpl; lia].
Qed.

(** One successful acquisition, seen from outside. *)
Lemma acquire_data_reading fuel self r self' :
  acquire_data fuel self = (Returned (DReading r), self') →
  ∃ spectra,
    Reading.spectrum r = Some spectra
    ∧ Reading.summed_spectra r = Reading.summed_spectra Reading.new
    ∧ Reading.sum_count r = sum_count self'
    ∧ Reading.session_count r = session_reading_count self'
    ∧ session_reading_count self' = session_reading_count self + 1
    ∧ settings self' = settings self
    ∧ failure_count self' = failure_count self
    ∧ if bool_decide
           (1 < State.scans_to_average (Settings.state (settings self)))
      then sum_count self' = sum_count self + 1
           ∧ if bool_decide (sum_count self = 0)
             then summed_spectra self' = Some spectra
             else ∃ summed, summed_spectra self = Some summed
                    ∧ (length summed ≤ length spectra)%nat
                    ∧ summed_spectra self'
                      = Some (zip_with Z.add summed spectra)
      else sum_count self' = sum_count self
           ∧ summed_spectra self' = summed_spectra self.
Proof.
  unfold acquire_data. rewrite bind_run. unfold get.
  destruct (disconnect self) eqn:Hd; [done|].
  rewrite bind_run, try_except_run, bind_run.
  pose proof (keeps_Acquire fuel self) as Hkept.
  destruct (Acquire fuel self) as [[[|spectra]| |] self1]; simpl in Hkept.
  - done.
  - destruct Hkept as (Hdis & Hset & Hsum & Hcnt & Hses & Hfail & _).
    cbn [mret M_ret no_failure Reading.failure Reading.new].
    rewrite bind_run. rewrite <- Hset, <- Hcnt, <- Hsum, <- Hses, <- Hfail.
    case_bool_decide as Havg.
    + unfold accumulate. rewrite !bind_run. unfold get at 1.
      case_bool_decide as Hzero.
      * intros [= <- <-]. exists spectra. by repeat split.
      * destruct (summed_spectra self1) as [summed|]; [|by cbn].
        cbn.
        destruct (add_spectrum summed spectra) as [summed' [|]] eqn:Hadd;
          [|by cbn].
        cbn.
        apply add_spectrum_ok in Hadd as [-> Hlen].
        intros [= <- <-]. exists spectra. repeat split; try done.
        by exists summed.
    + intros [= <- <-]. exists spectra. by repeat split.
  - destruct (bool_decide _); done.
  - done.
Qed.

Lemma pixel_sum_snoc i spectra s :
  pixel_sum i (spectra ++ [s]) = pixel_sum i spectra + s !!! i.
Proof.
  unfold pixel_sum. induction spectra as [|t spectra IH]; simpl; [lia|].
  rewrite IH. lia.
Qed.

Lemma elementwise_sum_one n s : length s = n → elementwise_sum n [s] = s.
Proof.
  intros <-. apply list_eq. intros i. unfold elementwise_sum.
  rewrite list_lookup_fmap.
  destruct (s !! i) as [v|] eqn:Hv.
  - rewrite lookup_seq_lt by (by eapply lookup_lt_Some). simpl.
    rewrite (list_lookup_total_correct _ _ _ Hv). f_equal. lia.
  - rewrite lookup_seq_ge; [done|]. by apply lookup_ge_None.
Qed.

Lemma elementwise_sum_snoc n spectra s :
  length s = n →
  zip_with Z.add (elementwise_sum n spectra) s
  = elementwise_sum n (spectra ++ [s]).
Proof.
  intros <-. apply list_eq. intros i. unfold elementwise_sum.
  rewrite lookup_zip_with, !list_lookup_fmap.
  destruct (s !! i) as [v|] eqn:Hv.
  - rewrite lookup_seq_lt by (by eapply lookup_lt_Some). simpl.
    rewrite pixel_sum_snoc. by rewrite (list_lookup_total_correct _ _ _ Hv).
  - rewrite lookup_seq_ge; [done|]. by apply lookup_ge_None.
Qed.

(** The invariant of repeated acquisitions: after the spectra [prev], the
    accumulator holds their elementwise sum and the count their number. *)
Lemma acquire_times_accumulates fuel n (K : nat) :
  ∀ self (prev : list (list Z)) readings self',
    1 < State.scans_to_average (Settings.state (settings self)) →
    sum_count self = Z.of_nat (length prev) →
    (prev ≠ [] → summed_spectra self = Some (elementwise_sum n prev)) →
    acquire_times fuel K self = (Returned (DReading <$> readings), self') →
    Forall (λ s, length s = n) (spectra_of readings) →
    length readings = K
    ∧ sum_count self' = Z.of_nat (length prev + K)
    ∧ (prev ++ spectra_of readings ≠ [] →
       summed_spectra self'
       = Some (elementwise_sum n (prev ++ spectra_of readings)))
    ∧ (∀ r, last readings = Some r →
         Reading.sum_count r = Z.of_nat (length prev + K)
         ∧ Reading.summed_spectra r = Reading.summed_spectra Reading.new).
Proof.
  induction K as [|K IH]; intros self prev readings self' Havg Hcnt Hsum.
  - simpl. intros [= Hr <-] _. symmetry in Hr. apply fmap_nil_inv in Hr.
    subst readings. rewrite Nat.add_0_r, app_nil_r. by repeat split.
  - cbn [acquire_times]. rewrite bind_run.
    destruct (acquire_data fuel self) as [[d| |] self1] eqn:Hacq; [|done..].
    rewrite bind_run.
    destruct (acquire_times fuel K self1) as [[ds| |] self2] eqn:Hrest;
      [|done..].
    intros [= Hds <-]. destruct readings as [|r readings]; [done|].
    injection Hds as -> ->. intros Hlen.
    apply Forall_cons in Hlen as [Hr Hlen].
    apply acquire_data_reading in Hacq
      as (spectra & Hspec & Hnosum & Hrcnt & _ & _ & Hset & _ & Hacc).
    rewrite bool_decide_eq_true_2 in Hacc by done.
    destruct Hacc as [Hcnt1 Hsum1].
    rewrite Hspec in Hr. simpl in Hr.
    assert (summed_spectra self1
            = Some (elementwise_sum n (prev ++ [spectra]))) as Hsum1'.
    { case_bool_decide as Hzero.
      - destruct prev; [|simpl in Hcnt; lia].
        rewrite Hsum1. simpl. by rewrite elementwise_sum_one.
      - destruct Hsum1 as (summed & Hs & _ & ->).
        rewrite Hsum in Hs by (intros ->; simpl in Hcnt; lia).
        injection Hs as <-. by rewrite elementwise_sum_snoc. }
    destruct (IH self1 (prev ++ [spectra]) readings self2)
      as (HK & Hcnt2 & Hsum2 & Hlast); try done.
    { by rewrite Hset. }
    { rewrite Hcnt1, Hcnt, length_app. simpl. lia. }
    rewrite length_app in Hcnt2, Hlast. simpl in Hcnt2, Hlast.
    assert (prev ++ spectra_of (r :: readings)
            = (prev ++ [spectra]) ++ spectra_of readings) as ->.
    { unfold spectra_of. simpl. rewrite Hspec. simpl.
      by rewrite <- app_assoc. }
    split; [simpl; by rewrite HK|].
    split; [rewrite Hcnt2; lia|].
    split; [done|].
    intros r' Hr'. destruct readings as [|r2 readings].
    + injection Hr' as <-. simpl in HK. subst K.
      split; [|done]. rewrite Hrcnt, Hcnt1, Hcnt. lia.
    + rewrite last_cons_cons in Hr'. destruct (Hlast r' Hr') as [-> ->].
      split; [lia | done].
Qed.

(** C4 (as amended): with [scans_to_average] = K > 1 and K successful
    acquisitions of spectra of [n] pixels in a row from an empty
    accumulator, the session's [summed_spectra] is the elementwise sum of
    the K spectra and its [sum_count] is K; the last Reading carries the
    count K, and its running-sum attribute is what a fresh Reading has. *)
Theorem averaging_accumulates fuel (n K : nat) self readings self' :
  State.scans_to_average (Settings.state (settings self)) = Z.of_nat K →
  (1 < K)%nat →
  sum_count self = 0 →
  acquire_times fuel K self = (Returned (DReading <$> readings), self') →
  Forall (λ s, length s = n) (spectra_of readings) →
  summed_spectra self' = Some (elementwise_sum n (spectra_of readings))
  ∧ sum_count self' = Z.of_nat K
  ∧ ∃ r, last readings = Some r
         ∧ Reading.sum_count r = Z.of_nat K
         ∧ Reading.summed_spectra r = Reading.summed_spectra Reading.new.
Proof.
  intros Hscans HK Hcnt Hrun Hlen.
  destruct (acquire_times_accumulates fuel n K self [] readings self')
    as (Hn & Hcnt' & Hsum & Hlast); try done.
  { rewrite Hscans. lia. }
  simpl in *. split; [|split; [done|]].
  - apply Hsum. destruct readings; [simpl in Hn; lia | done].
  - destruct (last readings) as [r|] eqn:Hr.
    + exists r. split; [done|]. by apply Hlast.
    + apply last_None in Hr. subst readings. simpl in Hn. lia.
Qed.

(** *** A transport error during the acquisition *)


End MethodProperties.

(** ** The worker on an SPIDevice *)

Section WorkerProperties.
Context {D : Type} `{!Device D}.
Implicit Type w : Worker D.

Lemma apply_record_responses record w :
  response_queue (apply_record record w).2 = response_queue w
  ∧ naps (apply_record record w).2 = naps w.
Proof.
  destruct record as [co|]; [|done]. unfold apply_record.
  rewrite bind_run. unfold on_device.
  destruct (handle_requests _ (connected_device w)) as [[a| |] d]; [|done..].
  repeat case_decide; done.
Qed.

Lemma for_each_apply_record_responses records w :
  response_queue (for_each records apply_record w).2 = response_queue w
  ∧ naps (for_each records apply_record w).2 = naps w.
Proof.
  revert w. induction records as [|record records IH]; intros w; [done|].
  cbn [for_each]. rewrite bind_run.
  pose proof (apply_record_responses record w) as [Hr Hn].
  destruct (apply_record record w) as [[a| |] w1]; simpl in Hr, Hn;
    [|done..].
  destruct (IH w1) as [-> ->]. done.
Qed.

(** Applying the commands of a batch publishes nothing and does not
    sleep. *)
Lemma apply_commands_responses w :
  response_queue (apply_commands w).2 = response_queue w.
Proof.
  unfold apply_commands. rewrite bind_run. unfold drain_and_dedupe.
  destruct (dedupe (command_queue w)) as [[dedupped| |] q]; [|done..].
  by destruct (for_each_apply_record_responses dedupped
                 (set_command_queue q w)) as [-> _].
Qed.

Lemma apply_commands_naps w : naps (apply_commands w).2 = naps w.
Proof.
  unfold apply_commands. rewrite bind_run. unfold drain_and_dedupe.
  destruct (dedupe (command_queue w)) as [[dedupped| |] q]; [|done..].
  by destruct (for_each_apply_record_responses dedupped
                 (set_command_queue q w)) as [_ ->].
Qed.

End WorkerProperties.

Section SPIWorker.
Context {H : Type} `{!Hardware H} `{!EEPROMCodec}.


(** Already the connect request of [run]'s start fails in this way: on
    an SPIDevice, whatever made the object, [run] puts its one message on
    the settings queue and gives up before the loop. *)
Lemma startup_SPIDevice_gives_up `{!Factory (SPIDevice H)}
    (is_ocean is_andor is_spi is_ble : bool) (st st' : Startup)
    (res : startup_result (SPIDevice H)) :
  @startup _ SPIDevice_Device _ is_ocean is_andor is_spi is_ble st
  = (Returned res, st') →
  ∃ d, res = GaveUp d.
Proof.
  unfold startup.
  destruct (connecting_class is_ocean is_andor is_spi is_ble) as [c|e|];
    [destruct (instantiate c) as [d|e|]| |]; cbn.
  - intros (? & ? & _ & [= <- _])%bind_Returned_inv. by eexists.
  - intros (? & ? & _ & [= <- _])%bind_Returned_inv. by eexists.
  - done.
  - intros (? & ? & _ & [= <- _])%bind_Returned_inv. by eexists.
  - done.
Qed.

End SPIWorker.

(** ** connect *)

Section ConnectProperties.
Context {H : Type} `{!Hardware H} `{!EEPROMCodec}.
Local Open Scope Z_scope.
Implicit Type self : SPIDevice H.

Lemma hw_op_trace {A} (op : H → outcome A * H) ev self a self' :
  hw_op op ev self = (Returned a, self') →
  trace self' = trace self ++ [ev a].
Proof.
  unfold hw_op. destruct (op (hw self)) as [[a'| |] h]; [|done..].
  by intros [= <- <-].
Qed.

Lemma drain_ready_trace fuel response self self' :
  drain_ready fuel response self = (Returned (), self') →
  ∃ chunks, trace self' = trace self ++ drained chunks.
Proof.
  revert response self. induction fuel as [|fuel IH]; intros response self;
    [done|].
  cbn [drain_ready]. intros (b & self1 & Hready & Hrest)%bind_Returned_inv.
  apply hw_op_trace in Hready. destruct b.
  - apply bind_Returned_inv in Hrest as (response' & self2 & Hread & Hrest).
    unfold bus_readinto in Hread.
    apply bind_Returned_inv in Hread as (data & self3 & Hread & [= _ <-]).
    apply hw_op_trace in Hread. apply IH in Hrest as [chunks Htr].
    exists (data :: chunks). rewrite Htr, Hread, Hready.
    unfold drained. simpl. by rewrite <- !app_assoc.
  - injection Hrest as <-. exists []. by rewrite Hready.
Qed.

Lemma EEPROMReadPage_trace page self EEPROMPage self' :
  EEPROMReadPage page self = (Returned EEPROMPage, self') →
  ∃ data, EEPROMPage = page_of data
          ∧ trace self' = trace self
              ++ [EvWrite (page_select page); EvSleep 10;
                  EvWriteReadInto read_request data].
Proof.
  unfold EEPROMReadPage.
  intros ([] & self1 & Hsel & Hrest)%bind_Returned_inv.
  apply hw_op_trace in Hsel.
  apply bind_Returned_inv in Hrest as ([] & self2 & [= <-] & Hrest).
  unfold bus_write_readinto in Hrest.
  apply bind_Returned_inv in Hrest as (data & self3 & Hread & [= <- <-]).
  apply hw_op_trace in Hread. exists data. split; [done|].
  rewrite Hread. cbn. rewrite Hsel. by rewrite <- !app_assoc.
Qed.

Lemma read_pages_trace fuel (n i : nat) eeprom_pages self pages self' :
  read_pages fuel (seq i n) eeprom_pages self = (Returned pages, self') →
  ∃ reads, length reads = n
           ∧ pages = eeprom_pages ++ (page_of ∘ snd <$> reads)
           ∧ trace self' = trace self ++ page_reads i reads.
Proof.
  revert i eeprom_pages self.
  induction n as [|n IH]; intros i eeprom_pages self.
  - intros [= <- <-]. exists []. by rewrite !app_nil_r.
  - cbn [seq read_pages].
    intros ([] & self1 & Hdrain & Hrest)%bind_Returned_inv.
    apply drain_ready_trace in Hdrain as [chunks Hdrain].
    apply bind_Returned_inv in Hrest as (page & self2 & Hpage & Hrest).
    apply EEPROMReadPage_trace in Hpage as (data & -> & Hpage).
    apply IH in Hrest as (reads & Hlen & -> & Htr).
    exists ((chunks, data) :: reads). split; [simpl; lia|].
    split; [by rewrite <- app_assoc|].
    rewrite Htr, Hpage, Hdrain. cbn [page_reads]. unfold page_read.
    by rewrite <- !app_assoc.
Qed.

Lemma keeps_log e : @keeps_session H _ (log e).
Proof. intros self. by repeat split. Qed.

Lemma keeps_drain_ready fuel response :
  keeps_session (drain_ready fuel response).
Proof.
  revert response.
  induction fuel as [|fuel IH]; intros response; [apply keeps_spin|].
  simpl. apply keeps_bind; [apply keeps_hw_op|].
  intros [|]; [|apply keeps_ret].
  apply keeps_bind; [apply keeps_bus_readinto | intros; apply IH].
Qed.

Lemma keeps_EEPROMReadPage page : keeps_session (EEPROMReadPage page).
Proof.
  unfold EEPROMReadPage, bus_write, bus_write_readinto, sleep.
  repeat (apply keeps_bind; [|intros]);
    first [apply keeps_hw_op | apply keeps_log | apply keeps_ret].
Qed.

Lemma keeps_read_pages fuel indices eeprom_pages :
  keeps_session (read_pages fuel indices eeprom_pages).
Proof.
  revert eeprom_pages.
  induction indices as [|i indices IH]; intros eeprom_pages;
    [apply keeps_ret|].
  simpl. apply keeps_bind; [apply keeps_drain_ready|]. intros _.
  apply keeps_bind; [apply keeps_EEPROMReadPage | intros; apply IH].
Qed.

(** *** Reading the trace of the page reads *)

Lemma parse_calls_drained chunks : parse_calls (drained chunks) = [].
Proof. induction chunks as [|d chunks IH]; [done|]. apply IH. Qed.

Lemma parse_calls_page_reads i reads : parse_calls (page_reads i reads) = [].
Proof.
  unfold parse_calls. revert i.
  induction reads as [|[chunks data] reads IH]; intros i; [done|].
  cbn [page_reads]. unfold page_read. rewrite !omap_app, IH.
  fold (parse_calls (drained chunks)). by rewrite parse_calls_drained.
Qed.

Lemma frames_drained chunks : frames (drained chunks) = [].
Proof. induction chunks as [|d chunks IH]; [done|]. apply IH. Qed.

Lemma frames_page_reads i reads :
  frames (page_reads i reads)
  = concat ((λ j, [page_select (Z.of_nat j); read_request])
            <$> seq i (length reads)).
Proof.
  unfold frames. revert i.
  induction reads as [|[chunks data] reads IH]; intros i; [done|].
  cbn [page_reads length seq fmap list_fmap concat]. unfold page_read.
  rewrite !omap_app, IH. fold (frames (drained chunks)).
  by rewrite frames_drained.
Qed.



Lemma page_slice_length data : length (slice (page_of data) 9 74) = 65%nat.
Proof.
  unfold slice, page_of, fill, bytearray.
  rewrite length_take, length_drop, length_take, length_app, length_drop.
  rewrite length_replicate. lia.
Qed.

(** What a completed [connect] has done. *)
Lemma connect_run fuel self b self' :
  connect fuel self = (Returned b, self') →
  ∃ reads e,
    let slices := (λ page, slice page 9 74) <$> (page_of ∘ snd <$> reads) in
    b = true
    ∧ length reads = MAX_PAGES
    ∧ trace self' = trace self ++ page_reads 0 reads ++ [EvParse slices]
    ∧ parse slices (Settings.eeprom (settings self)) = (Returned (), e)
    ∧ settings self'
      = {| Settings.eeprom := EEPROM.set_active_pixels_horizontal 1952 e;
           Settings.state :=
             State.set_integration_time_ms (VInt 10)
               (Settings.state (settings self)) |}.
Proof.
  unfold connect.
  intros (pages & self1 & Hpages & Hrest)%bind_Returned_inv.
  pose proof (keeps_read_pages fuel (seq 0 MAX_PAGES) [] self) as Hkept.
  rewrite Hpages in Hkept. destruct Hkept as (_ & Hset & _).
  apply read_pages_trace in Hpages as (reads & Hlen & -> & Htr).
  rewrite app_nil_l in Hrest.
  apply bind_Returned_inv in Hrest as ([] & self2 & Hparse & Hrest).
  unfold eeprom_parse in Hparse.
  apply bind_Returned_inv in Hparse as ([] & self3 & [= <-] & Hparse).
  unfold codec_call in Hparse. cbn in Hparse.
  destruct (parse _ (Settings.eeprom (settings self1))) as [[[]| |] e] eqn:He;
    [|done..].
  injection Hparse as <-. injection Hrest as <- <-.
  exists reads, e. cbn. rewrite <- Hset. repeat split; try done.
  by rewrite Htr, <- app_assoc.
Qed.

(** X26: [connect] does complete, and returns [True], on a bus that takes
    every frame and whose ready line is low at every sample, with a codec
    that parses what it is given: one sample of the ready line per page is
    all the waiting there is. *)
Lemma connect_returns_when_quiet fuel self :
  (0 < fuel)%nat →
  (∀ h, ∃ h', ready_value h = (Returned false, h')) →
  (∀ frame h, ∃ h', SPI_write frame h = (Returned (), h')) →
  (∀ command n h,
     ∃ data h', SPI_write_readinto command n h = (Returned data, h')) →
  (∀ pages e, ∃ e', parse pages e = (Returned (), e')) →
  ∃ self', connect fuel self = (Returned true, self').
Proof.
  intros Hfuel Hready Hwrite Hread Hparse.
  destruct fuel as [|fuel]; [lia|].
  assert (∀ indices eeprom_pages self0,
            ∃ pages self1,
              read_pages (S fuel) indices eeprom_pages self0
              = (Returned pages, self1)) as Hpages.
  { induction indices as [|i indices IH]; intros eeprom_pages self0;
      [by eexists _, _|].
    cbn [read_pages drain_ready]. rewrite !bind_run. unfold ready.
    destruct (Hready (hw self0)) as [h1 Hh1].
    rewrite (hw_op_Returned _ _ _ false h1 Hh1). cbn [mret M_ret].
    set (self1 := set_trace _ _).
    rewrite bind_run. unfold EEPROMReadPage, bus_write. rewrite bind_run.
    destruct (Hwrite (slice [60; 0; 2; 176; 64 + Z.of_nat i; 255; 62] 0 7)
                (hw self1)) as [h2 Hh2].
    rewrite (hw_op_Returned _ _ _ () h2 Hh2).
    unfold bus_write_readinto, sleep, log, modify. rewrite !bind_run.
    set (self2 := set_trace _ (set_trace _ _)).
    destruct (Hread [60; 0; 1; 49; 255; 62] (length (bytearray 74))
                (hw self2)) as (data & h3 & Hh3).
    rewrite (hw_op_Returned _ _ _ data h3 Hh3). cbn [mret M_ret].
    apply IH. }
  unfold connect. rewrite bind_run.
  destruct (Hpages (seq 0 MAX_PAGES) [] self) as (pages & self1 & ->).
  unfold eeprom_parse, codec_call, log, modify. rewrite !bind_run.
  cbn [settings set_trace].
  destruct (Hparse ((λ page, slice page 9 74) <$> pages)
              (Settings.eeprom (settings self1))) as [e' ->].
  by eexists.
Qed.

(** C6: a completed [connect] has read the pages 0, 1, ... in that order
    ([MAX_PAGES] of them, each by its page-select frame and a read
    request), has called the codec's [parse] once, after the last page,
    with the pages in order, each cut to the 65 bytes [9:74], and then has
    set [active_pixels_horizontal] to 1952 and [integration_time_ms] to 10
    and nothing else in the settings. *)
Theorem connect_reads_parses_overrides fuel self b self' :
  connect fuel self = (Returned b, self') →
  ∃ reads new e,
    let slices := (λ page, slice page 9 74) <$> (page_of ∘ snd <$> reads) in
    b = true
    ∧ trace self' = trace self ++ new
    ∧ new = page_reads 0 reads ++ [EvParse slices]
    ∧ frames new
      = concat ((λ i, [page_select (Z.of_nat i); read_request])
                <$> seq 0 MAX_PAGES)
    ∧ parse_calls new = [slices]
    ∧ length slices = MAX_PAGES
    ∧ Forall (λ s, length s = 65%nat) slices
    ∧ parse slices (Settings.eeprom (settings self)) = (Returned (), e)
    ∧ settings self'
      = {| Settings.eeprom := EEPROM.set_active_pixels_horizontal 1952 e;
           Settings.state :=
             State.set_integration_time_ms (VInt 10)
               (Settings.state (settings self)) |}.
Proof.
  intros (reads & e & -> & Hlen & Htr & Hparse & Hset)%connect_run.
  exists reads. eexists. exists e. cbn zeta.
  split; [done|]. split; [exact Htr|]. split; [done|].
  split; [|split; [|split; [|split]]]; try done.
  - unfold frames. rewrite omap_app. fold (frames (page_reads 0 reads)).
    rewrite frames_page_reads, Hlen. cbn. by rewrite app_nil_r.
  - unfold parse_calls. rewrite omap_app.
    fold (parse_calls (page_reads 0 reads)).
    by rewrite parse_calls_page_reads.
  - by rewrite !length_fmap.
  - apply Forall_fmap, Forall_fmap, Forall_forall. intros [chunks data] _.
    apply page_slice_length.
Qed.

Lemma frames_snoc_other tr e :
  (∀ frame, e ≠ EvWrite frame) →
  (∀ command data, e ≠ EvWriteReadInto command data) →
  frames (tr ++ [e]) = frames tr.
Proof.
  intros Hwrite Hread. unfold frames. rewrite omap_app. simpl.
  destruct e; try by rewrite app_nil_r.
  - by destruct (Hwrite frame).
  - by edestruct Hread.
Qed.

Lemma drain_ready_stuck fuel response self :
  (∀ h, ∃ h', ready_value h = (Returned true, h')) →
  (∀ n h, ∃ d h', SPI_readinto n h = (Returned d, h')) →
  ∃ self', drain_ready fuel response self = (Spinning, self')
           ∧ frames (trace self') = frames (trace self)
           ∧ settings self' = settings self.
Proof.
  intros Hready Hread. revert response self.
  induction fuel as [|fuel IH]; intros response self; [by eexists|].
  cbn [drain_ready]. rewrite bind_run. unfold ready.
  destruct (Hready (hw self)) as [h1 Hh1].
  rewrite (hw_op_Returned _ _ _ true h1 Hh1).
  set (self1 := set_trace _ _).
  rewrite bind_run. unfold bus_readinto. rewrite bind_run.
  destruct (Hread (2 - 0)%nat (hw self1)) as (d & h2 & Hh2).
  rewrite (hw_op_Returned _ _ _ d h2 Hh2). cbn [mret M_ret].
  set (self2 := set_trace _ _).
  destruct (IH (take 0 response ++ fill (slice response 0 2) d
                ++ drop 2 response) self2) as (self' & -> & Hframes & Hset).
  exists self'. split; [done|]. split; [|by rewrite Hset].
  rewrite Hframes. subst self2 self1. cbn [trace set_trace set_hw].
  by rewrite !frames_snoc_other.
Qed.

(** *** The page reads on the hardware *)







End ConnectProperties.

(** ** The theorems at work on the bench *)

Section BenchRuns.
#[local] Existing Instance Bench_codec.
Local Open Scope Z_scope.

Lemma EEPROMWritePage_frames_witness :
  let self := fresh_device 1 bench_idle in
  let write_array := Z.of_nat <$> seq 0 64 in
  (64 ≤ length write_array)%nat
  ∧ Forall is_byte write_array
  ∧ EEPROMWritePage 3 write_array self
    = (Returned (),
       set_trace
         [EvWrite ([0x3C; 0x00; 0x41; 0xB1] ++ write_array ++ [0xFF; 0x3E]);
          EvWrite [0x3C; 0x00; 0x02; 0xB0; 0x83; 0xFF; 0x3E];
          EvSleep 100] self).
Proof.
  intros self write_array.
  assert (64 ≤ length write_array)%nat as Hlen by (vm_compute; lia).
  assert (Forall is_byte write_array) as Hbytes
    by (apply (bool_decide_unpack _); vm_compute; exact I).
  split; [exact Hlen|]. split; [exact Hbytes|].
  exact (proj2 (proj2 (proj2 (proj2
    (EEPROMWritePage_frames 3 write_array self bench_idle bench_idle
       Hlen Hbytes eq_refl eq_refl))))).
Defined.

Lemma EEPROMWritePage_short_payload_witness :
  let self := fresh_device 1 bench_idle in
  (length [1; 2; 3] < 64)%nat
  ∧ ∃ e, EEPROMWritePage 0 [1; 2; 3] self = (Raised e, self)
         ∧ (Forall is_byte [1; 2; 3] → e = IndexError).
Proof.
  intros self.
  assert (length [1; 2; 3] < 64)%nat as Hshort by (simpl; lia).
  split; [exact Hshort|].
  exact (EEPROMWritePage_short_payload 0 [1; 2; 3] self Hshort).
Defined.

Lemma acquire_data_disconnected_witness :
  let self := set_disconnect true (fresh_device 1 bench_two_pixels) in
  acquire_data 3 self = (Returned (DBool false), self)
  ∧ Acquire 3 self = (Returned AcqFalse, self).
Proof.
  intros self. exact (acquire_data_disconnected 3 self eq_refl).
Defined.

Lemma change_setting_unknown_witness :
  let self := fresh_device 1 bench_idle in
  change_setting 1 "laser_enabled" (VInt 0) self = (Returned true, self).
Proof.
  intros self.
  apply (change_setting_unknown 1 "laser_enabled" (VInt 0) self eq_refl);
    discriminate.
Defined.

Lemma averaging_accumulates_witness :
  let self := fresh_device 2 bench_two_pixels in
  let r1 := {| Reading.integration_time_ms := VInt 0;
               Reading.laser_power_perc := VInt 100;
               Reading.laser_power_mW := VInt 0;
               Reading.laser_enabled := VBool false;
               Reading.spectrum := Some [0x1234];
               Reading.session_count := 1;
               Reading.sum_count := 1;
               Reading.summed_spectra := None;
               Reading.failure := None |} in
  let r2 := {| Reading.integration_time_ms := VInt 0;
               Reading.laser_power_perc := VInt 100;
               Reading.laser_power_mW := VInt 0;
               Reading.laser_enabled := VBool false;
               Reading.spectrum := Some [0x0001];
               Reading.session_count := 2;
               Reading.sum_count := 2;
               Reading.summed_spectra := None;
               Reading.failure := None |} in
  let self' := (acquire_times 3 2 self).2 in
  acquire_times 3 2 self = (Returned (DReading <$> [r1; r2]), self')
  ∧ summed_spectra self' = Some (elementwise_sum 1 [[0x1234]; [0x0001]])
  ∧ sum_count self' = 2
  ∧ ∃ r, last [r1; r2] = Some r
         ∧ Reading.sum_count r = 2
         ∧ Reading.summed_spectra r = Reading.summed_spectra Reading.new.
Proof.
  intros self r1 r2 self'.
  assert (acquire_times 3 2 self = (Returned (DReading <$> [r1; r2]), self'))
    as Hrun by (vm_compute; reflexivity).
  split; [exact Hrun|].
  apply (averaging_accumulates 3 1 2 self [r1; r2] self');
    [reflexivity | lia | reflexivity | exact Hrun | by repeat constructor].
Defined.

(** C4 (as stated) fails: after two acquisitions with an averaging window
    of two, the session holds the sum 0x1235 and the last Reading carries
    the count 2, but no running sum. *)
Lemma reading_not_stamped_with_sum :
  let self := fresh_device 2 bench_two_pixels in
  ∃ r1 r2 self',
    acquire_times 3 2 self = (Returned [DReading r1; DReading r2], self')
    ∧ summed_spectra self' = Some [0x1235]
    ∧ elementwise_sum 1 (spectra_of [r1; r2]) = [0x1235]
    ∧ Reading.sum_count r2 = 2
    ∧ Reading.summed_spectra r2
      ≠ Some (elementwise_sum 1 (spectra_of [r1; r2])).
Proof.
  intros self. do 3 eexists. split; [vm_compute; reflexivity|].
  repeat split; try reflexivity. discriminate.
Qed.


Lemma connect_reads_parses_overrides_witness :
  let self := fresh_device 1 bench_pages in
  let self' := (connect 1 self).2 in
  connect 1 self = (Returned true, self')
  ∧ parse_calls (trace self')
    = [(λ i, slice (marked_page i) 9 74) <$> seq 0 8]
  ∧ EEPROM.active_pixels_horizontal (Settings.eeprom (settings self')) = 1952
  ∧ State.integration_time_ms (Settings.state (settings self')) = VInt 10.
Proof.
  intros self self'.
  assert (connect 1 self = (Returned true, self')) as Hrun
    by (vm_compute; reflexivity).
  split; [exact Hrun|].
  destruct (connect_reads_parses_overrides 1 self true self' Hrun)
    as (reads & new & e & _ & _ & _ & _ & _ & _ & _ & _ & Hset).
  rewrite Hset. split; [vm_compute; reflexivity|]. split; reflexivity.
Defined.



End BenchRuns.

(** * Further properties of the modelled code *)

(** ** dedupe: when it raises, what it keeps *)

Lemma pill_only_last_Some co q :
  pill_only_last (Some co :: q) ↔ pill_only_last q.
Proof.
  split; [apply pill_only_last_cons|].
  intros Hq [|i] Hi; [done|]. simpl in *. f_equal. by apply Hq.
Qed.

Lemma pill_only_last_pill : pill_only_last [None].
Proof. intros [|i] Hi; [done|]. by destruct i. Qed.

Lemma remove_previous_pill name (keep : list item) rest new_keep :
  Forall is_Some keep →
  remove_previous name (keep ++ None :: rest) new_keep = Raised AttributeError.
Proof.
  intros Hkeep. revert new_keep.
  induction Hkeep as [|x keep [co ->] _ IH]; intros new_keep; [done|].
  simpl. case_decide; apply IH.
Qed.

Lemma filter_Forall_is_Some (P : item → Prop) `{!∀ x, Decision (P x)}
    (keep : list item) :
  Forall is_Some keep → Forall is_Some (filter P keep).
Proof.
  rewrite !Forall_forall. intros Hkeep x Hx.
  apply list_elem_of_filter in Hx. apply Hkeep, Hx.
Qed.

(** The loop of [dedupe] from any point on: it raises as soon as an item
    follows a kept poison pill. *)
Lemma dedupe_loop_raises q keep :
  Forall is_Some keep → ¬ pill_only_last q →
  ∃ rest, dedupe_loop q keep = (Raised AttributeError, rest).
Proof.
  revert keep. induction q as [|x q IH]; intros keep Hkeep Hq.
  - destruct Hq. by intros i Hi.
  - cbn [dedupe_loop]. rewrite remove_previous_spec by done.
    rewrite app_nil_l. destruct x as [co|].
    + apply IH.
      * apply Forall_app. split; [by apply filter_Forall_is_Some|].
        repeat constructor. by eexists.
      * by rewrite pill_only_last_Some in Hq.
    + destruct q as [|y q]; [destruct Hq; apply pill_only_last_pill|].
      cbn [dedupe_loop]. rewrite remove_previous_pill; [by eexists|].
      by apply filter_Forall_is_Some.
Qed.

(** X1: [dedupe] raises - AttributeError - exactly on the batches in which
    a poison pill is followed by another item; on every other batch it
    returns. *)
Theorem dedupe_raises_iff (q : list item) :
  ((∃ rest, dedupe q = (Raised AttributeError, rest)) ↔ ¬ pill_only_last q)
  ∧ (pill_only_last q → ∃ keep, dedupe q = (Returned keep, [])).
Proof.
  split; [split|].
  - intros [rest Hraise] Hq. unfold dedupe in Hraise.
    by rewrite dedupe_loop_spec in Hraise.
  - intros Hq. by apply dedupe_loop_raises.
  - intros Hq. unfold dedupe. rewrite dedupe_loop_spec by done. by eexists.
Qed.

(** Whatever [dedupe] returns is the list of last occurrences. *)
Lemma dedupe_Returned_inv q keep rest :
  dedupe q = (Returned keep, rest) →
  pill_only_last q ∧ keep = keep_last q ∧ rest = [].
Proof.
  intros Hret.
  assert (pill_only_last q) as Hq.
  { intros i Hi. destruct (decide (S i = length q)) as [|Hne]; [done|].
    assert (¬ pill_only_last q) as Hq by (intros Hq; by apply Hne, Hq).
    destruct (dedupe_loop_raises q [] (Forall_nil_2 _) Hq) as [rest' Hraise].
    unfold dedupe in Hret.
    by pose proof (eq_trans (eq_sym Hret) Hraise) as [=]. }
  split; [done|]. unfold dedupe in Hret.
  rewrite dedupe_loop_spec in Hret by done. by injection Hret as <- <-.
Qed.

Lemma keep_last_sublist q : keep_last q `sublist_of` q.
Proof.
  induction q as [|x q IH]; [done|]. simpl. case_decide.
  - by apply sublist_cons.
  - by apply sublist_skip.
Qed.

Lemma keep_last_covers q x :
  x ∈ q → ∃ y, y ∈ keep_last q ∧ item_setting y = item_setting x.
Proof.
  revert x. induction q as [|z q IH]; intros x; [by intros ?%elem_of_nil|].
  intros Hx. simpl. case_decide as Hz.
  - apply elem_of_cons in Hx as [->|Hx]; [|by apply IH].
    apply list_elem_of_fmap in Hz as (y & Hy & Hin).
    destruct (IH y Hin) as (y' & Hy' & Heq). exists y'. split; [done|].
    congruence.
  - apply elem_of_cons in Hx as [->|Hx].
    + exists z. split; [by left | done].
    + destruct (IH x Hx) as (y & Hy & Heq). exists y. split; [by right|done].
Qed.

(** X2: a batch that [dedupe] returns from is drained entirely; what is
    kept is a subsequence of the batch, so kept commands stay in their
    queue order and none is invented, and every setting name of the batch
    - the poison pill included - is still there. *)
Theorem dedupe_keeps_every_name (q keep rest : list item) :
  dedupe q = (Returned keep, rest) →
  rest = []
  ∧ keep `sublist_of` q
  ∧ (length keep ≤ length q)%nat
  ∧ ∀ x, x ∈ q → ∃ y, y ∈ keep ∧ item_setting y = item_setting x.
Proof.
  intros (_ & -> & ->)%dedupe_Returned_inv.
  split; [done|]. split; [apply keep_last_sublist|].
  split; [apply sublist_length, keep_last_sublist|].
  apply keep_last_covers.
Qed.

Lemma keep_last_NoDup_id q :
  NoDup (item_setting <$> q) → keep_last q = q.
Proof.
  induction q as [|x q IH]; [done|]. simpl.
  intros [Hx Hq]%NoDup_cons. rewrite decide_False by done.
  f_equal. by apply IH.
Qed.

Lemma keep_last_pill_only_last q :
  pill_only_last q → pill_only_last (keep_last q).
Proof.
  induction q as [|[co|] q IH]; [done| |].
  - intros Hq%pill_only_last_Some. simpl. case_decide; [by apply IH|].
    apply pill_only_last_Some. by apply IH.
  - intros ->%pill_only_last_head. apply pill_only_last_pill.
Qed.

(** X3: [dedupe] is idempotent: run on its own result (enqueued again in
    the same order) it returns that result unchanged. *)
Theorem dedupe_idempotent (q keep rest : list item) :
  dedupe q = (Returned keep, rest) →
  dedupe keep = (Returned keep, []).
Proof.
  intros (Hq & -> & _)%dedupe_Returned_inv. unfold dedupe.
  rewrite dedupe_loop_spec by (by apply keep_last_pill_only_last || done).
  cbn [filter list_filter app]. f_equal. f_equal.
  apply keep_last_NoDup_id. rewrite keep_last_names.
  apply last_occurrences_NoDup.
Qed.

Lemma dedupe_keeps_every_name_witness :
  let a1 := Some {| setting := "a"; value := VInt 1 |} in
  let b2 := Some {| setting := "b"; value := VInt 2 |} in
  let a3 := Some {| setting := "a"; value := VInt 3 |} in
  dedupe [a1; b2; a3; None] = (Returned [b2; a3; None], [])
  ∧ [b2; a3; None] `sublist_of` [a1; b2; a3; None]
  ∧ (length [b2; a3; None] ≤ length [a1; b2; a3; None])%nat
  ∧ ∀ x, x ∈ [a1; b2; a3; None] →
         ∃ y, y ∈ [b2; a3; None] ∧ item_setting y = item_setting x.
Proof.
  intros a1 b2 a3.
  assert (dedupe [a1; b2; a3; None] = (Returned [b2; a3; None], [])) as Hrun
    by reflexivity.
  split; [exact Hrun|].
  exact (proj2 (dedupe_keeps_every_name _ _ _ Hrun)).
Defined.

Lemma dedupe_idempotent_witness :
  let a1 := Some {| setting := "a"; value := VInt 1 |} in
  let b2 := Some {| setting := "b"; value := VInt 2 |} in
  let a3 := Some {| setting := "a"; value := VInt 3 |} in
  dedupe [a1; b2; a3; None] = (Returned [b2; a3; None], [])
  ∧ dedupe [b2; a3; None] = (Returned [b2; a3; None], []).
Proof.
  intros a1 b2 a3.
  assert (dedupe [a1; b2; a3; None] = (Returned [b2; a3; None], [])) as Hrun
    by reflexivity.
  split; [exact Hrun|]. exact (dedupe_idempotent _ _ _ Hrun).
Defined.

(** ** Acquire: the handshake, the pixels, the acquiring flag *)

Section AcquireProperties.
Context {H : Type} `{!Hardware H} `{!EEPROMCodec}.
Local Open Scope Z_scope.
Implicit Type self : SPIDevice H.

Lemma length_fill buf data : length (fill buf data) = length buf.
Proof.
  unfold fill. rewrite length_take, length_app, length_drop. lia.
Qed.

Lemma readinto_two buf data :
  length buf = 2%nat →
  length (take 0 buf ++ fill (slice buf 0 2) data ++ drop 2 buf) = 2%nat
  ∧ (length data = 2%nat →
     take 0 buf ++ fill (slice buf 0 2) data ++ drop 2 buf = data).
Proof.
  intros Hbuf. destruct buf as [|b0 [|b1 [|]]]; try done. split.
  - cbn [take drop app]. rewrite app_nil_r, length_fill. done.
  - intros Hdata. destruct data as [|d0 [|d1 [|]]]; done.
Qed.

Lemma wait_ready_trace fuel self self' :
  wait_ready fuel self = (Returned (), self') →
  ∃ n : nat, trace self' = trace self ++ replicate n (EvReady false)
                           ++ [EvReady true].
Proof.
  revert self. induction fuel as [|fuel IH]; intros self; [done|].
  cbn [wait_ready]. intros (b & self1 & Hready & Hrest)%bind_Returned_inv.
  apply hw_op_trace in Hready. destruct b.
  - injection Hrest as <-. exists 0%nat. by rewrite Hready.
  - apply IH in Hrest as [n Htr]. exists (S n).
    rewrite Htr, Hready. cbn. by rewrite <- !app_assoc.
Qed.

Lemma hw_op_inv {A} (op : H → outcome A * H) ev self a self' :
  hw_op op ev self = (Returned a, self') →
  ∃ h', op (hw self) = (Returned a, h').
Proof.
  unfold hw_op. destruct (op (hw self)) as [[a'| |] h]; [|done..].
  intros [= <- <-]. by eexists.
Qed.

Lemma read_spectra_trace fuel SPIBuf spectra self out self' :
  length SPIBuf = 2%nat →
  read_spectra fuel SPIBuf spectra self = (Returned out, self') →
  ∃ chunks pixels,
    trace self' = trace self ++ drained chunks
    ∧ out = spectra ++ pixels
    ∧ length pixels = length chunks
    ∧ (Forall (λ d, length d = 2%nat) chunks → pixels = decode <$> chunks)
    ∧ Forall (λ d, ∃ h h', SPI_readinto 2 h = (Returned d, h')) chunks.
Proof.
  revert SPIBuf spectra self.
  induction fuel as [|fuel IH]; intros SPIBuf spectra self Hbuf; [done|].
  cbn [read_spectra]. intros (b & self1 & Hready & Hrest)%bind_Returned_inv.
  apply hw_op_trace in Hready. destruct b.
  - apply bind_Returned_inv in Hrest as (SPIBuf' & self2 & Hread & Hrest).
    unfold bus_readinto in Hread.
    apply bind_Returned_inv in Hread as (data & self3 & Hread & [= <- <-]).
    pose proof (hw_op_inv _ _ _ _ _ Hread) as [h' Hfrom].
    apply hw_op_trace in Hread.
    destruct (readinto_two SPIBuf data Hbuf) as [Hlen Hdata].
    apply IH in Hrest as (chunks & pixels & Htr & -> & Hpx & Hdec & Hfroms);
      [|done].
    exists (data :: chunks), (decode (take 0 SPIBuf
                                      ++ fill (slice SPIBuf 0 2) data
                                      ++ drop 2 SPIBuf) :: pixels).
    split; [|split; [|split; [|split]]].
    + rewrite Htr, Hread, Hready. unfold drained. cbn.
      by rewrite <- !app_assoc.
    + by rewrite <- app_assoc.
    + simpl. by rewrite Hpx.
    + intros [Hd Hchunks]%Forall_cons. cbn [fmap list_fmap].
      rewrite Hdata by done. f_equal. by apply Hdec.
    + constructor; [|done]. by eexists _, _.
  - injection Hrest as <- <-. exists [], []. rewrite app_nil_r, Hready.
    by repeat split.
Qed.

(** X4: a completed [Acquire] has raised the trigger, sampled the ready
    line until it was high, lowered the trigger, and then read two bytes
    per high sample until the line was low; it returns one pixel per read,
    in order of arrival - for a two-byte read the first byte times 256
    plus the second - and leaves [acquiring] false and the rest of the
    session as it was. *)
Theorem Acquire_handshake fuel self spectra self' :
  Acquire fuel self = (Returned (AcqSpectrum spectra), self') →
  ∃ (n : nat) chunks,
    trace self' = trace self ++ [EvTrigger true]
                  ++ replicate n (EvReady false)
                  ++ [EvReady true; EvTrigger false] ++ drained chunks
    ∧ length spectra = length chunks
    ∧ (Forall (λ d, length d = 2%nat) chunks → spectra = decode <$> chunks)
    ∧ acquiring self' = false
    ∧ session_kept self self'.
Proof.
  intros Hacq. pose proof (keeps_Acquire fuel self) as Hkept.
  rewrite Hacq in Hkept. revert Hacq. unfold Acquire.
  intros (self0 & ? & [= <- <-] & Hrest)%bind_Returned_inv.
  destruct (disconnect self); [done|].
  apply bind_Returned_inv in Hrest as ([] & self1 & [= <-] & Hrest).
  apply bind_Returned_inv in Hrest as ([] & self2 & Htrig & Hrest).
  apply hw_op_trace in Htrig.
  apply bind_Returned_inv in Hrest as ([] & self3 & Hwait & Hrest).
  apply wait_ready_trace in Hwait as [n Hwait].
  apply bind_Returned_inv in Hrest as ([] & self4 & Htrig' & Hrest).
  apply hw_op_trace in Htrig'.
  apply bind_Returned_inv in Hrest as (out & self5 & Hread & Hrest).
  apply read_spectra_trace in Hread
    as (chunks & pixels & Hread & -> & Hpx & Hdec & _); [|done].
  apply bind_Returned_inv in Hrest as ([] & self6 & [= <-] & [= <- <-]).
  exists n, chunks.
  split; [|split; [done|split; [done|split; [done|exact Hkept]]]].
  cbn [trace set_acquiring]. rewrite Hread, Htrig', Hwait, Htrig.
  cbn [trace set_acquiring]. by rewrite <- !app_assoc.
Qed.

(** The pixel of two bytes is an unsigned 16-bit value. *)
Lemma decode_range hi lo :
  is_byte hi → is_byte lo →
  decode [hi; lo] = 256 * hi + lo ∧ 0 ≤ decode [hi; lo] < 65536.
Proof.
  unfold is_byte, decode. cbn. rewrite Z.shiftl_mul_pow2 by lia.
  change (2 ^ 8) with 256. lia.
Qed.

(** X5: on a bus whose two-byte reads deliver two bytes, every pixel
    that [Acquire] returns is an unsigned 16-bit value. *)
Theorem Acquire_pixels_16_bit fuel self spectra self' :
  (∀ h d h', SPI_readinto 2 h = (Returned d, h') →
             length d = 2%nat ∧ Forall is_byte d) →
  Acquire fuel self = (Returned (AcqSpectrum spectra), self') →
  Forall (λ pixel, 0 ≤ pixel < 65536) spectra.
Proof.
  intros Hbus. unfold Acquire.
  intros (self0 & ? & [= <- <-] & Hrest)%bind_Returned_inv.
  destruct (disconnect self); [done|].
  apply bind_Returned_inv in Hrest as ([] & self1 & _ & Hrest).
  apply bind_Returned_inv in Hrest as ([] & self2 & _ & Hrest).
  apply bind_Returned_inv in Hrest as ([] & self3 & _ & Hrest).
  apply bind_Returned_inv in Hrest as ([] & self4 & _ & Hrest).
  apply bind_Returned_inv in Hrest as (out & self5 & Hread & Hrest).
  apply read_spectra_trace in Hread
    as (chunks & pixels & _ & -> & _ & Hdec & Hfrom); [|done].
  apply bind_Returned_inv in Hrest as ([] & self6 & _ & [= <- _]).
  assert (Forall (λ d, length d = 2%nat ∧ Forall is_byte d) chunks) as Hok.
  { eapply Forall_impl; [exact Hfrom|]. intros d (h & h' & Hd). eauto. }
  simpl. rewrite Hdec by (eapply Forall_impl; [exact Hok|]; by intros ? []).
  apply Forall_fmap. eapply Forall_impl; [exact Hok|].
  intros d [Hlen Hbytes]. destruct d as [|hi [|lo [|]]]; try done.
  apply Forall_cons in Hbytes as [Hhi Hlo%Forall_cons_1].
  apply decode_range; [done | apply Hlo].
Qed.

End AcquireProperties.

(** ** The acquiring flag *)

Lemma bind_not_Returned_inv {S A B} (m : M S A) (f : A → M S B) s o s' :
  (m ≫= f) s = (o, s') → (∀ b, o ≠ Returned b) →
  (∃ e, o = Raised e ∧ m s = (Raised e, s'))
  ∨ (o = Spinning ∧ m s = (Spinning, s'))
  ∨ (∃ a s1, m s = (Returned a, s1) ∧ f a s1 = (o, s')).
Proof.
  rewrite bind_run. destruct (m s) as [[a|e|] s1].
  - intros Hf _. right. right. eauto.
  - intros [= <- <-] _. left. eauto.
  - intros [= <- <-] _. right. left. eauto.
Qed.

Section FlagProperties.
Context {H : Type} `{!Hardware H} `{!EEPROMCodec}.
Local Open Scope Z_scope.
Implicit Type self : SPIDevice H.

Lemma keeps_acquiring_bind {A B} (m : M (SPIDevice H) A)
    (f : A → M (SPIDevice H) B) :
  keeps_acquiring m → (∀ a, keeps_acquiring (f a)) →
  keeps_acquiring (m ≫= f).
Proof.
  intros Hm Hf self. rewrite bind_run. specialize (Hm self).
  destruct (m self) as [[a| |] self1]; simpl in *; [|done..].
  by rewrite Hf.
Qed.

Lemma keeps_acquiring_ret {A} (a : A) : @keeps_acquiring H A (mret a).
Proof. by intros self. Qed.

Lemma keeps_acquiring_spin {A} : @keeps_acquiring H A spin.
Proof. by intros self. Qed.

Lemma keeps_acquiring_hw_op {A} (op : H → outcome A * H) ev :
  keeps_acquiring (hw_op op ev).
Proof.
  intros self. unfold hw_op. by destruct (op (hw self)) as [[a| |] h].
Qed.

Lemma keeps_acquiring_wait_ready fuel : keeps_acquiring (wait_ready fuel).
Proof.
  induction fuel as [|fuel IH]; [apply keeps_acquiring_spin|]. simpl.
  apply keeps_acquiring_bind; [apply keeps_acquiring_hw_op|].
  intros [|]; [apply keeps_acquiring_ret | apply IH].
Qed.

Lemma keeps_acquiring_read_spectra fuel SPIBuf spectra :
  keeps_acquiring (read_spectra fuel SPIBuf spectra).
Proof.
  revert SPIBuf spectra. induction fuel as [|fuel IH]; intros SPIBuf spectra;
    [apply keeps_acquiring_spin|].
  simpl. apply keeps_acquiring_bind; [apply keeps_acquiring_hw_op|].
  intros [|]; [|apply keeps_acquiring_ret].
  apply keeps_acquiring_bind; [|intros; apply IH].
  apply keeps_acquiring_bind; [apply keeps_acquiring_hw_op|].
  intros; apply keeps_acquiring_ret.
Qed.

(** One step of a body that has set the flag: either the step ends the
    run with the flag set, or the run goes on with the flag set. *)
Lemma flagged_step {A B} (m : M (SPIDevice H) A)
    (f : A → M (SPIDevice H) B) self o self' :
  keeps_acquiring m → acquiring self = true →
  (m ≫= f) self = (o, self') → (∀ b, o ≠ Returned b) →
  acquiring self' = true
  ∨ ∃ a self1, acquiring self1 = true ∧ f a self1 = (o, self').
Proof.
  intros Hk Hflag Hrun Ho. specialize (Hk self).
  destruct (bind_not_Returned_inv m f self o self' Hrun Ho)
    as [(e & -> & Hm)|[[-> Hm]|(a & self1 & Hm & Hf)]];
    rewrite Hm in Hk; simpl in Hk.
  - left. congruence.
  - left. congruence.
  - right. exists a, self1. split; [congruence | done].
Qed.

(** X6: an [Acquire] that does not return - a bus or pin operation
    raised, or a busy-wait never ended - leaves [acquiring] set: the flag
    is only cleared on the way to [return spectra]. *)
Theorem Acquire_fault_leaves_acquiring fuel self o self' :
  disconnect self = false →
  Acquire fuel self = (o, self') →
  (∀ a, o ≠ Returned a) →
  acquiring self' = true.
Proof.
  intros Hd Hacq Ho. revert Hacq. unfold Acquire.
  rewrite bind_run. unfold get. rewrite Hd. rewrite bind_run.
  cbn [modify]. set (self1 := set_acquiring true self).
  assert (acquiring self1 = true) as Hflag by done. clearbody self1.
  intros Hacq.
  apply flagged_step in Hacq as [?|([] & self2 & Hflag2 & Hacq)];
    [done| |apply keeps_acquiring_hw_op|done|done].
  apply flagged_step in Hacq as [?|([] & self3 & Hflag3 & Hacq)];
    [done| |apply keeps_acquiring_wait_ready|done|done].
  apply flagged_step in Hacq as [?|([] & self4 & Hflag4 & Hacq)];
    [done| |apply keeps_acquiring_hw_op|done|done].
  apply flagged_step in Hacq as [?|(spectra & self5 & Hflag5 & Hacq)];
    [done| |apply keeps_acquiring_read_spectra|done|done].
  cbn in Hacq. injection Hacq as <- _. by destruct (Ho (AcqSpectrum spectra)).
Qed.

Lemma wait_not_acquiring_spins fuel self :
  acquiring self = true →
  wait_not_acquiring fuel self
  = (Spinning, set_trace (trace self ++ replicate fuel (EvSleep 10)) self).
Proof.
  revert self. induction fuel as [|fuel IH]; intros self Hflag.
  - cbn. rewrite app_nil_r. by destruct self.
  - cbn [wait_not_acquiring]. rewrite bind_run. unfold get. rewrite Hflag.
    rewrite bind_run. unfold sleep, log, modify. rewrite IH by done.
    destruct self. cbn. by rewrite <- app_assoc.
Qed.

(** X7: while [acquiring] is set, [set_integration_time_ms] never gets
    past its wait: it only sleeps, 10 ms at a time, writes nothing to the
    bus and leaves the integration time as it was. *)
Theorem set_integration_time_ms_spins fuel value self :
  acquiring self = true →
  set_integration_time_ms fuel value self
  = (Spinning, set_trace (trace self ++ replicate fuel (EvSleep 10)) self).
Proof.
  intros Hflag. unfold set_integration_time_ms.
  by rewrite bind_run, wait_not_acquiring_spins.
Qed.

End FlagProperties.

(** ** Setting the integration time *)

Section RegisterProperties.
Context {H : Type} `{!Hardware H} `{!EEPROMCodec}.
Local Open Scope Z_scope.
Implicit Type self : SPIDevice H.

Lemma high_byte_range v : is_byte (Z.shiftr v 8) ↔ 0 ≤ v < 65536.
Proof.
  unfold is_byte. rewrite Z.shiftr_div_pow2 by lia. change (2 ^ 8) with 256.
  split; intros Hv.
  - pose proof (Z.div_mod v 256 ltac:(lia)).
    pose proof (Z.mod_pos_bound v 256 ltac:(lia)). lia.
  - split; [apply Z.div_pos; lia | apply Z.div_lt_upper_bound; lia].
Qed.

Lemma low_byte v : v - Z.shiftl (Z.shiftr v 8) 8 = v `mod` 256.
Proof.
  rewrite Z.shiftr_div_pow2, Z.shiftl_mul_pow2 by lia.
  change (2 ^ 8) with 256. pose proof (Z.div_mod v 256 ltac:(lia)). lia.
Qed.

(** [SPIWrite] of a 16-bit value on a bus that takes the frame. *)
Lemma SPIWrite_run value v address self h :
  as_int value = Some v → 0 ≤ v < 65536 →
  SPI_write (register_frame address v) (hw self) = (Returned (), h) →
  SPIWrite value address self
  = (Returned (),
     set_trace (trace self ++ [EvWrite (register_frame address v); EvSleep 10])
       (set_hw h self)).
Proof.
  intros Hint Hv Hw. unfold SPIWrite. rewrite Hint.
  rewrite bind_run, setitem_run; [|simpl; lia|by apply high_byte_range].
  rewrite bind_run, setitem_run; [|simpl; lia|].
  2:{ cbn. rewrite low_byte. unfold is_byte.
      apply Z.mod_pos_bound. lia. }
  cbn [bytearray replicate list_insert insert lookup_total list_lookup_total].
  cbn. rewrite low_byte, Z.shiftr_div_pow2 by lia. change (2 ^ 8) with 256.
  rewrite bind_run. unfold bus_write.
  change (slice ?l 0 8) with (register_frame address v).
  rewrite (hw_op_Returned _ _ _ () h) by exact Hw.
  unfold sleep, log, modify. destruct self. cbn. by rewrite <- app_assoc.
Qed.

(** [SPIWrite] of anything else raises before the bus is touched. *)
Lemma SPIWrite_rejected value address self :
  (as_int value = None →
   SPIWrite value address self = (Raised TypeError, self))
  ∧ (∀ v, as_int value = Some v → ¬ 0 ≤ v < 65536 →
          SPIWrite value address self = (Raised ValueError, self)).
Proof.
  split.
  - intros Hint. unfold SPIWrite. by rewrite Hint.
  - intros v Hint Hv. unfold SPIWrite. rewrite Hint, bind_run.
    unfold setitem. rewrite bool_decide_eq_true_2 by (simpl; lia).
    rewrite bool_decide_eq_false_2; [done|].
    intros Hb. by apply Hv, high_byte_range.
Qed.

Lemma wait_not_acquiring_idle fuel self :
  acquiring self = false →
  wait_not_acquiring (S fuel) self = (Returned (), self).
Proof.
  intros Hflag. cbn [wait_not_acquiring]. rewrite bind_run. unfold get.
  by rewrite Hflag.
Qed.

(** [change_setting] through the table: the handler's outcome, with
    [True] for any return. *)
Lemma change_setting_dispatch fuel setting value self f :
  lambdas self !! setting = Some f →
  change_setting fuel setting value self
  = match call_handler fuel f value self with
    | (Returned _, self') => (Returned true, self')
    | (Raised e, self') => (Raised e, self')
    | (Spinning, self') => (Spinning, self')
    end.
Proof.
  intros Hf. unfold change_setting. rewrite bind_run. unfold get.
  cbn beta iota. rewrite Hf, bind_run.
  by destruct (call_handler fuel f value self) as [[[]| |] self'].
Qed.

Lemma init_lambdas_integration_time_ms :
  init_lambdas !! "integration_time_ms" = Some call_set_integration_time_ms.
Proof. reflexivity. Qed.

Lemma set_integration_time_ms_via_SPIWrite fuel value self :
  acquiring self = false →
  set_integration_time_ms (S fuel) value self
  = match SPIWrite value INTEGRATION_ADDRESS self with
    | (Returned _, self') =>
        (Returned (),
         set_settings
           (Settings.set_state
              (State.set_integration_time_ms value
                 (Settings.state (settings self')))
              (settings self')) self')
    | (Raised e, self') => (Raised e, self')
    | (Spinning, self') => (Spinning, self')
    end.
Proof.
  intros Hflag. unfold set_integration_time_ms.
  rewrite bind_run, wait_not_acquiring_idle by done. cbn beta iota.
  rewrite bind_run.
  by destruct (SPIWrite value INTEGRATION_ADDRESS self) as [[[]| |] self'].
Qed.

(** X8: [change_setting] of [integration_time_ms] to a 16-bit value, on
    an idle session and a bus that takes the frame: one 8-byte frame to
    register 0x11 with the write bit (0x91), the value split into its low
    and high byte in that order, a 10 ms sleep, then the value recorded in
    the settings; the call returns [True].  The two bytes give the value
    back: low + 256 * high. *)
Theorem change_setting_integration_time fuel value v self h :
  lambdas self = init_lambdas →
  acquiring self = false →
  (0 < fuel)%nat →
  as_int value = Some v → 0 ≤ v < 65536 →
  SPI_write (register_frame 0x11 v) (hw self) = (Returned (), h) →
  change_setting fuel "integration_time_ms" value self
  = (Returned true,
     set_settings
       (Settings.set_state
          (State.set_integration_time_ms value
             (Settings.state (settings self)))
          (settings self))
       (set_trace
          (trace self ++ [EvWrite (register_frame 0x11 v); EvSleep 10])
          (set_hw h self)))
  ∧ ∃ low high,
      register_frame 0x11 v = [0x3C; 0x00; 0x03; 0x91; low; high; 0xFF; 0x3E]
      ∧ is_byte low ∧ is_byte high ∧ low + 256 * high = v.
Proof.
  intros Hl Hflag Hfuel Hint Hv Hw. split.
  - destruct fuel as [|fuel]; [lia|].
    rewrite (change_setting_dispatch _ _ _ _ call_set_integration_time_ms)
      by (by rewrite Hl).
    cbn [call_handler].
    rewrite set_integration_time_ms_via_SPIWrite by done.
    unfold INTEGRATION_ADDRESS.
    by rewrite (SPIWrite_run value v _ self h).
  - exists (v `mod` 256), (v `div` 256). split; [done|]. unfold is_byte.
    pose proof (Z.div_mod v 256 ltac:(lia)).
    pose proof (Z.mod_pos_bound v 256 ltac:(lia)).
    split; [lia|]. split; [|lia].
    split; [apply Z.div_pos; lia | apply Z.div_lt_upper_bound; lia].
Qed.

(** X9: [change_setting] of [integration_time_ms] to a value that is not
    an integer raises TypeError, and to an integer outside 0..65535
    raises ValueError; the exception is not caught, nothing is sent on the
    bus and the session is left exactly as it was. *)
Theorem change_setting_integration_time_rejected fuel value self :
  lambdas self = init_lambdas →
  acquiring self = false →
  (0 < fuel)%nat →
  (as_int value = None →
   change_setting fuel "integration_time_ms" value self
   = (Raised TypeError, self))
  ∧ (∀ v, as_int value = Some v → ¬ 0 ≤ v < 65536 →
          change_setting fuel "integration_time_ms" value self
          = (Raised ValueError, self)).
Proof.
  intros Hl Hflag Hfuel. destruct fuel as [|fuel]; [lia|].
  assert (∀ e, SPIWrite value INTEGRATION_ADDRESS self = (Raised e, self) →
               change_setting (S fuel) "integration_time_ms" value self
               = (Raised e, self)) as Hvia.
  { intros e He.
    rewrite (change_setting_dispatch _ _ _ _ call_set_integration_time_ms)
      by (by rewrite Hl).
    cbn [call_handler].
    rewrite set_integration_time_ms_via_SPIWrite by done. by rewrite He. }
  destruct (SPIWrite_rejected value INTEGRATION_ADDRESS self) as [Hty Hval].
  split; [intros Hint | intros v Hint Hv]; apply Hvia; eauto.
Qed.

Lemma keeps_raise {A} e : @keeps_session H A (raise e).
Proof. intros self. apply session_kept_refl. Qed.

Lemma keeps_setitem buf i v : @keeps_session H _ (setitem buf i v).
Proof.
  unfold setitem. repeat case_bool_decide;
    first [apply keeps_ret | apply keeps_raise].
Qed.

Lemma keeps_SPIWrite value address : keeps_session (SPIWrite value address).
Proof.
  unfold SPIWrite. destruct (as_int value); [|apply keeps_raise].
  unfold bus_write, sleep.
  repeat (apply keeps_bind; [|intros]);
    first [apply keeps_setitem | apply keeps_hw_op | apply keeps_log].
Qed.

Lemma keeps_wait_not_acquiring fuel :
  @keeps_session H _ (wait_not_acquiring fuel).
Proof.
  induction fuel as [|fuel IH]; [apply keeps_spin|]. simpl.
  apply keeps_bind; [apply keeps_get|]. intros self.
  destruct (acquiring self); [|apply keeps_ret].
  apply keeps_bind; [apply keeps_log | intros; apply IH].
Qed.

(** X10: [set_integration_time_ms] records the new integration time only
    once the register write has gone through: whenever the call does not
    return - it raised on the value or on the bus, or it is still waiting
    - the settings and the accumulators are those from before. *)
Theorem set_integration_time_ms_failure_keeps_settings
    fuel value self o self' :
  set_integration_time_ms fuel value self = (o, self') →
  (∀ a, o ≠ Returned a) →
  session_kept self self'.
Proof.
  intros Hrun Ho. unfold set_integration_time_ms in Hrun.
  assert (keeps_session (wait_not_acquiring fuel
                         ≫= λ _, SPIWrite value INTEGRATION_ADDRESS))
    as Hkeeps.
  { apply keeps_bind; [apply keeps_wait_not_acquiring|].
    intros; apply keeps_SPIWrite. }
  pose proof (keeps_wait_not_acquiring fuel self) as Hk1.
  apply bind_not_Returned_inv in Hrun
    as [(e & -> & Hm)|[[-> Hm]|([] & self1 & Hm & Hrun)]]; [| | |done];
    rewrite Hm in Hk1; simpl in Hk1; [done..|].
  pose proof (keeps_SPIWrite value INTEGRATION_ADDRESS self1) as Hk2.
  apply bind_not_Returned_inv in Hrun
    as [(e & -> & Hm2)|[[-> Hm2]|([] & self2 & Hm2 & Hrun)]]; [| | |done];
    rewrite Hm2 in Hk2; simpl in Hk2;
    try (by eapply session_kept_trans).
  cbn in Hrun. injection Hrun as <- _. by destruct (Ho ()).
Qed.

End RegisterProperties.

(** ** write_eeprom *)

Section EEPROMWriteProperties.
Context {H : Type} `{!Hardware H} `{!EEPROMCodec}.
Local Open Scope Z_scope.
Implicit Type self : SPIDevice H.

(** One page write on a bus that takes every frame. *)
Lemma EEPROMWritePage_run page write_array self :
  (∀ frame h, ∃ h', SPI_write frame h = (Returned (), h')) →
  (64 ≤ length write_array)%nat → Forall is_byte write_array →
  ∃ self', EEPROMWritePage page write_array self = (Returned (), self')
           ∧ settings self' = settings self
           ∧ trace self' = trace self
               ++ [EvWrite (write_frame write_array);
                   EvWrite (commit_frame page); EvSleep 100].
Proof.
  intros Hbus Hlen Hbytes.
  assert (length (take 64 write_array) = 64%nat) as Htake
    by (rewrite length_take; lia).
  unfold EEPROMWritePage. rewrite bind_run, try_except_run.
  rewrite (copy_payload_run 64 0) by (done || simpl; lia).
  change (take (0 + 4) (slice_assign (bytearray 70) 0 3 [60; 0; 65; 177]))
    with [0x3C; 0x00; 0x41; 0xB1].
  change (drop (0 + 4 + 64)
            (slice_assign (bytearray 70) 0 3 [60; 0; 65; 177]))
    with [0; 0; 0].
  rewrite drop_0.
  destruct (write_buffer_sent (take 64 write_array) Htake) as [Hl Hsent].
  cbv zeta in Hl.
  rewrite bind_run, setitem_run by (unfold is_byte; lia).
  rewrite bind_run, setitem_run
    by (unfold is_byte; rewrite ?length_insert; lia).
  rewrite bind_run. unfold bus_write at 1. rewrite Hsent.
  fold (write_frame write_array).
  destruct (Hbus (write_frame write_array) (hw self)) as [h1 Hw1].
  rewrite (hw_op_Returned _ _ _ () h1) by exact Hw1.
  rewrite bind_run. unfold bus_write.
  change (slice [60; 0; 2; 176; 128 + page; 255; 62] 0 7)
    with (commit_frame page).
  set (self1 := set_trace _ _).
  destruct (Hbus (commit_frame page) (hw self1)) as [h2 Hw2].
  rewrite (hw_op_Returned _ _ _ () h2) by exact Hw2.
  unfold sleep, log, modify. eexists. split; [done|].
  subst self1. cbn. split; [done|]. by rewrite <- !app_assoc.
Qed.

Lemma frames_app tr1 tr2 : frames (tr1 ++ tr2) = frames tr1 ++ frames tr2.
Proof. apply omap_app. Qed.

(** The page loop over the pages whose buffers are there. *)
Lemma write_pages_run (n i : nat) self :
  (∀ frame h, ∃ h', SPI_write frame h = (Returned (), h')) →
  (∀ page, (i ≤ page < i + n)%nat →
     ∃ write_array,
       EEPROM.write_buffers (Settings.eeprom (settings self)) !! page
       = Some write_array
       ∧ (64 ≤ length write_array)%nat ∧ Forall is_byte write_array) →
  ∃ self', write_pages (seq i n) self = (Returned (), self')
           ∧ settings self' = settings self
           ∧ frames (trace self')
             = frames (trace self)
               ++ concat (page_write_frames
                            (EEPROM.write_buffers
                               (Settings.eeprom (settings self)))
                          <$> seq i n).
Proof.
  intros Hbus. revert i self. induction n as [|n IH]; intros i self Hbufs.
  - exists self. by rewrite app_nil_r.
  - cbn [seq write_pages]. rewrite bind_run. unfold get. cbn beta iota.
    destruct (Hbufs i ltac:(lia)) as (write_array & Hbuf & Hlen & Hbytes).
    rewrite Hbuf, bind_run.
    destruct (EEPROMWritePage_run (Z.of_nat i) write_array self
                Hbus Hlen Hbytes) as (self1 & -> & Hset & Htr).
    destruct (IH (S i) self1) as (self' & -> & Hset' & Htr').
    { intros page Hpage. rewrite Hset. apply Hbufs. lia. }
    exists self'. split; [done|]. split; [congruence|].
    rewrite Htr', Htr, Hset, frames_app. cbn [fmap list_fmap concat].
    unfold page_write_frames at 2. rewrite Hbuf.
    by rewrite <- app_assoc.
Qed.

Lemma write_pages_app pages1 pages2 self :
  write_pages (pages1 ++ pages2) self
  = (write_pages pages1 ≫= λ _, write_pages pages2) self.
Proof.
  revert self. induction pages1 as [|page pages1 IH]; intros self; [done|].
  cbn [app write_pages]. rewrite !bind_run. unfold get. cbn beta iota.
  destruct (_ !! page) as [write_array|]; [|done].
  rewrite !bind_run.
  destruct (EEPROMWritePage _ write_array self) as [[[]| |] self1]; [|done..].
  by rewrite IH, bind_run.
Qed.

Lemma codec_call_run (f : EEPROM.t → outcome () * EEPROM.t) self r e :
  f (Settings.eeprom (settings self)) = (r, e) →
  codec_call f self
  = (r, set_settings (Settings.set_eeprom e (settings self)) self).
Proof. intros Hf. unfold codec_call. by rewrite Hf. Qed.

(** The rendering step of [write_eeprom]. *)
Lemma render_run self r e :
  generate_write_buffers (Settings.eeprom (settings self)) = (r, e) →
  (log EvGenerateWriteBuffers ≫= λ _,
     codec_call generate_write_buffers ≫= λ _, mret true) self
  = (match r with
     | Returned _ => Returned true
     | Raised x => Raised x
     | Spinning => Spinning
     end,
     set_settings (Settings.set_eeprom e (settings self))
       (set_trace (trace self ++ [EvGenerateWriteBuffers]) self)).
Proof.
  intros Hgen. rewrite bind_run. unfold log, modify. cbn beta iota.
  rewrite bind_run, (codec_call_run _ _ r e) by exact Hgen.
  by destruct r as [[]| |].
Qed.

(** [write_eeprom] once the codec has rendered its buffers. *)
Lemma write_eeprom_rendered self e :
  generate_write_buffers (Settings.eeprom (settings self)) = (Returned (), e) →
  write_eeprom self
  = (write_pages (seq 0 MAX_PAGES) ≫= λ _, mret true)
      (set_settings (Settings.set_eeprom e (settings self))
         (set_trace (trace self ++ [EvGenerateWriteBuffers]) self)).
Proof.
  intros Hgen. unfold write_eeprom. rewrite bind_run, try_except_run.
  by rewrite (render_run self _ e Hgen).
Qed.

(** X11: when the codec renders a buffer of at least 64 bytes for every
    page and the bus takes every frame, [write_eeprom] returns [True]
    having sent, for the pages 0, 1, ... in that order, the write frame
    of the page's buffer followed by the page's commit frame, and no other
    frame. *)
Theorem write_eeprom_frames self e :
  (∀ frame h, ∃ h', SPI_write frame h = (Returned (), h')) →
  generate_write_buffers (Settings.eeprom (settings self)) = (Returned (), e) →
  (∀ page, (page < MAX_PAGES)%nat →
     ∃ write_array,
       EEPROM.write_buffers e !! page = Some write_array
       ∧ (64 ≤ length write_array)%nat ∧ Forall is_byte write_array) →
  ∃ self', write_eeprom self = (Returned true, self')
           ∧ Settings.eeprom (settings self') = e
           ∧ frames (trace self')
             = frames (trace self)
               ++ concat (page_write_frames (EEPROM.write_buffers e)
                          <$> seq 0 MAX_PAGES).
Proof.
  intros Hbus Hgen Hbufs. rewrite (write_eeprom_rendered self e Hgen).
  rewrite bind_run. set (self1 := set_settings _ _).
  destruct (write_pages_run MAX_PAGES 0 self1 Hbus) as (self' & -> & Hset & Htr).
  { intros page Hpage. apply Hbufs. lia. }
  exists self'. split; [done|]. rewrite Hset, Htr. subst self1. cbn.
  split; [done|]. by rewrite frames_app, app_nil_r.
Qed.

(** X12: when the codec renders buffers for the first [k] pages only,
    [k] below [MAX_PAGES], [write_eeprom] raises IndexError - after it has
    written and committed those [k] pages. *)
Theorem write_eeprom_missing_buffer self e (k : nat) :
  (∀ frame h, ∃ h', SPI_write frame h = (Returned (), h')) →
  generate_write_buffers (Settings.eeprom (settings self)) = (Returned (), e) →
  length (EEPROM.write_buffers e) = k → (k < MAX_PAGES)%nat →
  Forall (λ write_array,
            (64 ≤ length write_array)%nat ∧ Forall is_byte write_array)
    (EEPROM.write_buffers e) →
  ∃ self', write_eeprom self = (Raised IndexError, self')
           ∧ frames (trace self')
             = frames (trace self)
               ++ concat (page_write_frames (EEPROM.write_buffers e)
                          <$> seq 0 k).
Proof.
  intros Hbus Hgen Hk Hlt Hbufs. rewrite (write_eeprom_rendered self e Hgen).
  rewrite bind_run. set (self1 := set_settings _ _).
  replace MAX_PAGES with (k + (MAX_PAGES - k))%nat by lia.
  rewrite seq_app, write_pages_app, bind_run.
  destruct (write_pages_run k 0 self1 Hbus) as (self' & -> & Hset & Htr).
  { intros page Hpage. subst self1. cbn.
    destruct (lookup_lt_is_Some_2 (EEPROM.write_buffers e) page)
      as [write_array Hbuf]; [lia|].
    exists write_array. split; [done|].
    rewrite Forall_forall in Hbufs. apply Hbufs.
    by eapply list_elem_of_lookup_2. }
  exists self'. split.
  - destruct (MAX_PAGES - k)%nat as [|m] eqn:Hm; [lia|].
    cbn [seq write_pages]. rewrite bind_run. unfold get. cbn beta iota.
    rewrite Hset. subst self1. cbn [settings set_settings Settings.eeprom
                                      Settings.set_eeprom].
    by rewrite (lookup_ge_None_2 _ (0 + k)) by lia.
  - rewrite Htr. subst self1. cbn. by rewrite frames_app, app_nil_r.
Qed.

(** X13: when the codec fails to render the write buffers, [write_eeprom]
    catches the exception and returns [False] without any bus traffic -
    and [change_setting], under either of its two names for it, still
    returns [True]. *)
Theorem write_eeprom_render_failure fuel value self e eeprom' :
  lambdas self = init_lambdas →
  generate_write_buffers (Settings.eeprom (settings self))
  = (Raised e, eeprom') →
  let self' :=
    set_settings (Settings.set_eeprom eeprom' (settings self))
      (set_trace (trace self ++ [EvGenerateWriteBuffers]) self) in
  write_eeprom self = (Returned false, self')
  ∧ frames (trace self') = frames (trace self)
  ∧ change_setting fuel "write_eeprom" value self = (Returned true, self')
  ∧ change_setting fuel "replace_eeprom" value self = (Returned true, self').
Proof.
  intros Hl Hgen self'.
  assert (write_eeprom self = (Returned false, self')) as Hw.
  { unfold write_eeprom. rewrite bind_run, try_except_run.
    by rewrite (render_run self _ eeprom' Hgen). }
  split; [done|]. split.
  - subst self'. cbn. by rewrite frames_app, app_nil_r.
  - split.
    + rewrite (change_setting_dispatch _ _ _ _ call_write_eeprom)
        by (by rewrite Hl).
      cbn [call_handler]. by rewrite bind_run, Hw.
    + rewrite (change_setting_dispatch _ _ _ _ call_write_eeprom)
        by (by rewrite Hl).
      cbn [call_handler]. by rewrite bind_run, Hw.
Qed.

End EEPROMWriteProperties.

(** ** acquire_data: counters and the accumulator *)

Section AcquisitionProperties.
Context {H : Type} `{!Hardware H} `{!EEPROMCodec}.
Local Open Scope Z_scope.
Implicit Type self : SPIDevice H.

(** X14: the Readings of consecutive successful acquisitions carry
    consecutive session counts, starting one above the session's count,
    and the session's count ends on the last of them. *)
Theorem acquire_times_session_counts fuel (K : nat) self readings self' :
  acquire_times fuel K self = (Returned (DReading <$> readings), self') →
  Reading.session_count <$> readings
  = (λ i, session_reading_count self + Z.of_nat i) <$> seq 1 K
  ∧ session_reading_count self' = session_reading_count self + Z.of_nat K.
Proof.
  revert self readings. induction K as [|K IH]; intros self readings.
  - simpl. intros [= Hr <-]. symmetry in Hr. apply fmap_nil_inv in Hr.
    subst readings. split; [done | lia].
  - cbn [acquire_times]. rewrite bind_run.
    destruct (acquire_data fuel self) as [[d| |] self1] eqn:Hacq; [|done..].
    rewrite bind_run.
    destruct (acquire_times fuel K self1) as [[ds| |] self2] eqn:Hrest;
      [|done..].
    intros [= Hds <-]. destruct readings as [|r readings]; [done|].
    injection Hds as -> ->.
    apply acquire_data_reading in Hacq
      as (spectra & _ & _ & _ & Hcount & Hses & _).
    destruct (IH self1 readings Hrest) as [Hcounts Hlast].
    split; [|lia]. cbn [fmap list_fmap seq]. f_equal; [lia|].
    rewrite Hcounts, <- (fmap_S_seq 1 K), <- list_fmap_compose.
    apply list_fmap_ext. intros ? i ?. simpl. lia.
Qed.

(** X15: with averaging off ([scans_to_average] not above 1) successful
    acquisitions never touch the accumulator: [summed_spectra] and
    [sum_count] stay as they were and every Reading carries that
    [sum_count]. *)
Theorem acquire_times_averaging_off fuel (K : nat) self readings self' :
  State.scans_to_average (Settings.state (settings self)) ≤ 1 →
  acquire_times fuel K self = (Returned (DReading <$> readings), self') →
  summed_spectra self' = summed_spectra self
  ∧ sum_count self' = sum_count self
  ∧ Forall (λ r, Reading.sum_count r = sum_count self) readings.
Proof.
  revert self readings. induction K as [|K IH]; intros self readings Hoff.
  - simpl. intros [= Hr <-]. symmetry in Hr. apply fmap_nil_inv in Hr.
    by subst readings.
  - cbn [acquire_times]. rewrite bind_run.
    destruct (acquire_data fuel self) as [[d| |] self1] eqn:Hacq; [|done..].
    rewrite bind_run.
    destruct (acquire_times fuel K self1) as [[ds| |] self2] eqn:Hrest;
      [|done..].
    intros [= Hds <-]. destruct readings as [|r readings]; [done|].
    injection Hds as -> ->.
    apply acquire_data_reading in Hacq
      as (spectra & _ & _ & Hrsum & _ & _ & Hset & _ & Hacc).
    rewrite bool_decide_eq_false_2 in Hacc by lia.
    destruct Hacc as [Hcnt Hsum].
    destruct (IH self1 readings) as (Hsum' & Hcnt' & Hall);
      [by rewrite Hset | done |].
    split; [congruence|]. split; [congruence|].
    constructor; [congruence|].
    eapply Forall_impl; [exact Hall|]. intros r' Hr'. congruence.
Qed.

(** X16: with averaging on, the accumulator keeps growing for as long as
    acquisitions succeed: after [N] of them from an empty accumulator -
    [N] may well exceed the averaging window - [sum_count] is [N] and
    [summed_spectra] is the elementwise sum of all [N] spectra.  The
    session never divides and never resets. *)
Theorem accumulator_never_resets fuel (n N : nat) self readings self' :
  1 < State.scans_to_average (Settings.state (settings self)) →
  sum_count self = 0 →
  (0 < N)%nat →
  acquire_times fuel N self = (Returned (DReading <$> readings), self') →
  Forall (λ s, length s = n) (spectra_of readings) →
  sum_count self' = Z.of_nat N
  ∧ summed_spectra self' = Some (elementwise_sum n (spectra_of readings)).
Proof.
  intros Havg Hcnt HN Hrun Hlen.
  destruct (acquire_times_accumulates fuel n N self [] readings self')
    as (Hn & Hcnt' & Hsum & _); try done.
  simpl in *. split; [done|]. apply Hsum.
  destruct readings; [simpl in Hn; lia | done].
Qed.

Lemma add_spectrum_short summed spectrum :
  (length spectrum < length summed)%nat →
  add_spectrum summed spectrum
  = (zip_with Z.add summed spectrum ++ drop (length spectrum) summed, false).
Proof.
  revert spectrum. induction summed as [|a summed IH]; intros spectrum Hlen.
  - simpl in Hlen. lia.
  - destruct spectrum as [|b spectrum]; [done|]. simpl in *.
    by rewrite IH by lia.
Qed.

(** X17: with averaging on and sums already accumulated, an acquisition
    whose spectrum is shorter than the accumulator raises IndexError out
    of [acquire_data] - after the pixels it has were added in place:
    [summed_spectra] is left half updated, while [sum_count] and the
    session count are not incremented. *)
Theorem acquire_data_short_spectrum fuel self self1 spectra summed :
  disconnect self = false →
  1 < State.scans_to_average (Settings.state (settings self)) →
  sum_count self ≠ 0 →
  summed_spectra self = Some summed →
  Acquire fuel self = (Returned (AcqSpectrum spectra), self1) →
  (length spectra < length summed)%nat →
  acquire_data fuel self
  = (Raised IndexError,
     set_summed_spectra
       (Some (zip_with Z.add summed spectra ++ drop (length spectra) summed))
       self1)
  ∧ sum_count self1 = sum_count self
  ∧ session_reading_count self1 = session_reading_count self.
Proof.
  intros Hd Havg Hcnt Hsum Hacq Hshort.
  pose proof (keeps_Acquire fuel self) as Hkept. rewrite Hacq in Hkept.
  destruct Hkept as (_ & Hset & Hsum1 & Hcnt1 & Hses1 & _).
  simpl in Hset, Hsum1, Hcnt1, Hses1.
  split; [|done].
  unfold acquire_data. rewrite bind_run. unfold get. rewrite Hd.
  rewrite bind_run, try_except_run, bind_run, Hacq.
  cbn [mret M_ret no_failure Reading.failure Reading.new].
  rewrite bind_run, (bool_decide_eq_true_2 _ Havg).
  unfold accumulate. rewrite !bind_run. unfold get at 1.
  rewrite Hcnt1, Hsum1, Hsum, (bool_decide_eq_false_2 _ Hcnt).
  cbn. by rewrite add_spectrum_short.
Qed.

End AcquisitionProperties.

(** ** connect that does not complete *)

Section ConnectFailure.
Context {H : Type} `{!Hardware H} `{!EEPROMCodec}.
Local Open Scope Z_scope.
Implicit Type self : SPIDevice H.

(** X18: a [connect] that does not return - a bus fault or an endless
    wait during the page reads, or an exception of the parser - has not
    applied its overrides to the session state: [integration_time_ms] and
    the rest of [settings.state] are as before, and so are the
    accumulators and counters. *)
Theorem connect_failure_keeps_state fuel self o self' :
  connect fuel self = (o, self') →
  (∀ b, o ≠ Returned b) →
  Settings.state (settings self') = Settings.state (settings self)
  ∧ summed_spectra self' = summed_spectra self
  ∧ sum_count self' = sum_count self
  ∧ session_reading_count self' = session_reading_count self
  ∧ failure_count self' = failure_count self.
Proof.
  intros Hrun Ho. unfold connect in Hrun.
  pose proof (keeps_read_pages fuel (seq 0 MAX_PAGES) [] self) as Hk.
  apply bind_not_Returned_inv in Hrun
    as [(e & -> & Hm)|[[-> Hm]|(pages & self1 & Hm & Hrun)]]; [| | |done];
    rewrite Hm in Hk; destruct Hk as (_ & Hset & Hsum & Hcnt & Hses & Hf & _);
    simpl in *; try (by rewrite Hset).
  unfold eeprom_parse, log, modify in Hrun. rewrite !bind_run in Hrun.
  cbn beta iota in Hrun. unfold codec_call in Hrun.
  cbn [settings set_trace] in Hrun.
  destruct (parse _ (Settings.eeprom (settings self1))) as [[[]| |] e'];
    cbn in Hrun.
  - injection Hrun as <- _. by destruct (Ho true).
  - injection Hrun as <- <-. cbn. by rewrite Hset.
  - injection Hrun as <- <-. cbn. by rewrite Hset.
Qed.

End ConnectFailure.

(** ** The worker and its response queue *)

Section ResponseQueue.
Context {D : Type} `{!Device D}.
Implicit Type w : Worker D.

Lemma one_response_at_most_refl w : one_response_at_most w w.
Proof. split; [done | by left]. Qed.

Lemma keeps_responses_bind {A B} (m : M (Worker D) A)
    (f : A → M (Worker D) B) :
  keeps_responses m → (∀ a, keeps_responses (f a)) →
  keeps_responses (m ≫= f).
Proof.
  intros Hm Hf w. rewrite bind_run. specialize (Hm w).
  destruct (m w) as [[a| |] w1]; simpl in *; [|done..].
  destruct (Hf a w1) as [-> ->]. done.
Qed.

Lemma puts_after_keeps {A B} (m : M (Worker D) A)
    (f : A → M (Worker D) B) :
  keeps_responses m → (∀ a, puts_one_at_most (f a)) →
  puts_one_at_most (m ≫= f).
Proof.
  intros Hm Hf w. rewrite bind_run. specialize (Hm w).
  destruct (m w) as [[a| |] w1]; simpl in *;
    [|destruct Hm as [? ?]; split; [done | by left]..].
  destruct Hm as [Hsize Hq]. destruct (Hf a w1) as [Hsize' Hq'].
  split; [congruence|]. unfold full in *. by rewrite Hsize, Hq in Hq'.
Qed.

Lemma keeps_after_puts {A B} (m : M (Worker D) A)
    (f : A → M (Worker D) B) :
  puts_one_at_most m → (∀ a, keeps_responses (f a)) →
  puts_one_at_most (m ≫= f).
Proof.
  intros Hm Hf w. rewrite bind_run. specialize (Hm w).
  destruct (m w) as [[a| |] w1]; simpl in *; [|done..].
  unfold one_response_at_most in *. destruct (Hf a w1) as [-> ->]. done.
Qed.

Lemma keeps_puts {A} (m : M (Worker D) A) :
  keeps_responses m → puts_one_at_most m.
Proof. intros Hm w. destruct (Hm w) as [? ?]. split; [done | by left]. Qed.

Lemma keeps_responses_ret {A} (a : A) : @keeps_responses D A (mret a).
Proof. by intros w. Qed.

Lemma keeps_responses_raise {A} e : @keeps_responses D A (raise e).
Proof. by intros w. Qed.

Lemma keeps_responses_get : @keeps_responses D _ get.
Proof. by intros w. Qed.

Lemma keeps_responses_on_device {A} (m : M D A) :
  keeps_responses (on_device m).
Proof.
  intros w. unfold on_device. by destruct (m (connected_device w)).
Qed.

Lemma keeps_responses_try_except {A} (body : M (Worker D) A) catches handler :
  keeps_responses body → (∀ e, keeps_responses (handler e)) →
  keeps_responses (try_except body catches handler).
Proof.
  intros Hb Hh w. rewrite try_except_run. specialize (Hb w).
  destruct (body w) as [[a|e|] w1]; simpl in *; [done| |done].
  destruct (catches e); [|done]. destruct (Hh e w1) as [-> ->]. done.
Qed.

Lemma keeps_responses_apply_commands :
  @keeps_responses D _ apply_commands.
Proof.
  unfold apply_commands. apply keeps_responses_bind.
  - intros w. unfold drain_and_dedupe. by destruct (dedupe (command_queue w)).
  - intros dedupped. induction dedupped as [|record dedupped IH];
      [apply keeps_responses_ret|].
    cbn [for_each]. apply keeps_responses_bind; [|intros; apply IH].
    destruct record as [co|]; [|by intros w]. unfold apply_record.
    apply keeps_responses_bind; [apply keeps_responses_on_device|].
    intros _. repeat case_decide; by intros w.
Qed.

Lemma keeps_responses_poll_sleep : @keeps_responses D _ poll_sleep.
Proof.
  unfold poll_sleep. apply keeps_responses_bind; [apply keeps_responses_get|].
  intros w. destruct (as_int _); [|apply keeps_responses_raise].
  case_bool_decide; [apply keeps_responses_raise | by intros w'].
Qed.

Lemma puts_put r : puts_one_at_most (@put D r).
Proof.
  intros w. unfold put. rewrite bind_run. unfold get. cbn beta iota.
  destruct (full w) eqn:Hfull; [apply one_response_at_most_refl|].
  split; [done|]. right. by exists r.
Qed.

Lemma puts_put_nowait r : puts_one_at_most (@put_nowait D r).
Proof.
  intros w. unfold put_nowait. rewrite bind_run. unfold get. cbn beta iota.
  destruct (full w) eqn:Hfull; [apply one_response_at_most_refl|].
  split; [done|]. right. by exists r.
Qed.

Lemma puts_try_except {A} (body : M (Worker D) A) catches handler :
  puts_one_at_most body → (∀ e, keeps_responses (handler e)) →
  puts_one_at_most (try_except body catches handler).
Proof.
  intros Hb Hh w. rewrite try_except_run. specialize (Hb w).
  destruct (body w) as [[a|e|] w1]; simpl in *; [done| |done].
  destruct (catches e); [|done].
  unfold one_response_at_most in *. destruct (Hh e w1) as [-> ->]. done.
Qed.

Lemma puts_relay reading_response :
  @puts_one_at_most D _ (relay reading_response).
Proof.
  unfold relay. destruct (keep_alive reading_response).
  - apply keeps_after_puts; [apply puts_put|]. intros _.
    apply keeps_responses_bind; [by intros w | intros; apply keeps_responses_ret].
  - apply keeps_after_puts.
    2:{ intros _. apply keeps_responses_bind; [apply keeps_responses_poll_sleep|].
        intros; apply keeps_responses_ret. }
    case_bool_decide.
    + destruct (data reading_response); apply puts_put.
    + destruct (data reading_response) as [|[|]|r].
      * apply keeps_puts, keeps_responses_ret.
      * apply keeps_puts, keeps_responses_raise.
      * apply puts_put.
      * destruct (Reading.failure r); [apply puts_put|].
        destruct (Reading.spectrum r);
          [|apply keeps_puts, keeps_responses_ret].
        apply puts_try_except; [apply puts_put_nowait|].
        intros; apply keeps_responses_ret.
Qed.

(** X19: one pass of the worker loop puts at most one response on the
    response queue, at its end, and only when the queue is not full; so a
    bounded queue that is within its bound stays within it. *)
Theorem cycle_publishes_at_most_one w :
  one_response_at_most w (cycle w).2
  ∧ (response_maxsize w ≠ 0%nat →
     (length (response_queue w) ≤ response_maxsize w)%nat →
     (length (response_queue (cycle w).2) ≤ response_maxsize w)%nat).
Proof.
  assert (puts_one_at_most cycle) as Hcycle.
  { unfold cycle. apply puts_after_keeps; [apply keeps_responses_apply_commands|].
    intros _. apply puts_after_keeps; [apply keeps_responses_get|].
    intros w0. destruct (received_poison_pill_command w0);
      [apply keeps_puts, keeps_responses_ret|].
    apply puts_after_keeps.
    - apply keeps_responses_try_except; [|intros; apply keeps_responses_ret].
      apply keeps_responses_bind; [apply keeps_responses_on_device|].
      intros [|r [|]]; first [apply keeps_responses_ret
                             | apply keeps_responses_raise].
    - intros [[d|r]|]; first [apply puts_relay
                             | apply keeps_puts, keeps_responses_ret]. }
  split; [apply Hcycle|]. intros Hbound Hlen.
  destruct (Hcycle w) as [_ [->|(r & -> & Hfull)]]; [done|].
  unfold full in Hfull. apply bool_decide_eq_false in Hfull.
  rewrite length_app. simpl. lia.
Qed.

End ResponseQueue.

(** ** The loop and what reaches the caller *)

(** X20: given a batch that ends in the poison pill, the loop of a worker
    around a device that records its requests returns after one pass: the
    device has been given the surviving commands of the batch, in order,
    and no acquisition request; nothing is published and the command queue
    is empty. *)
Theorem run_loop_stops_on_pill (n : nat) (q : list item)
    (w : Worker (list SpectrometerRequest)) :
  pill_only_last q → None ∈ q →
  ∃ w', @run_loop _ Recorder (S n) (set_command_queue q w) = (Returned (), w')
        ∧ connected_device w'
          = connected_device w ++ (request_of <$> commands (keep_last q))
        ∧ response_queue w' = response_queue w
        ∧ command_queue w' = [].
Proof.
  intros Hq Hpill.
  destruct (cycle_pill_last_Recorder q w Hq Hpill) as (w' & Hcycle & Hrest).
  exists w'. split; [|done]. cbn [run_loop]. by rewrite bind_run, Hcycle.
Qed.

Lemma run_loop_stops_on_pill_witness :
  let on := Some {| setting := "laser_enabled"; value := VInt 1 |} in
  let off := Some {| setting := "laser_enabled"; value := VInt 0 |} in
  let w := bench_worker ([] : list SpectrometerRequest) in
  pill_only_last [on; off; None] ∧ None ∈ [on; off; None]
  ∧ ∃ w', @run_loop _ Recorder 1 (set_command_queue [on; off; None] w)
          = (Returned (), w')
          ∧ connected_device w'
            = connected_device w
              ++ (request_of <$> commands (keep_last [on; off; None]))
          ∧ response_queue w' = response_queue w
          ∧ command_queue w' = [].
Proof.
  intros on off w.
  assert (pill_only_last [on; off; None]) as Hq.
  { intros i. do 3 (destruct i as [|i]; [by simpl|]). by simpl. }
  assert (None ∈ [on; off; None]) as Hpill by (do 2 right; left).
  split; [exact Hq|]. split; [exact Hpill|].
  exact (run_loop_stops_on_pill 0 [on; off; None] w Hq Hpill).
Defined.

Section Publishing.
Context {H : Type} `{!Hardware H} `{!EEPROMCodec}.
Local Open Scope Z_scope.

Lemma acquire_data_reading_no_failure fuel (self : SPIDevice H) r self' :
  acquire_data fuel self = (Returned (DReading r), self') →
  Reading.failure r = None ∧ ∃ spectra, Reading.spectrum r = Some spectra.
Proof.
  unfold acquire_data. rewrite bind_run. unfold get.
  destruct (disconnect self) eqn:Hd; [done|].
  rewrite bind_run, try_except_run, bind_run.
  destruct (Acquire fuel self) as [[[|spectra]| |] self1].
  - done.
  - cbn [mret M_ret no_failure Reading.failure Reading.new].
    rewrite bind_run. case_bool_decide as Havg.
    + unfold accumulate. rewrite !bind_run. unfold get at 1.
      case_bool_decide as Hzero.
      * intros [= <- <-]. split; [done | by eexists].
      * destruct (summed_spectra self1) as [summed|]; [|by cbn].
        cbn. destruct (add_spectrum summed spectra) as [summed' [|]];
          [|by cbn].
        cbn. intros [= <- <-]. split; [done | by eexists].
    + intros [= <- <-]. split; [done | by eexists].
  - destruct (bool_decide _); done.
  - done.
Qed.

(** X21: take any [handle_requests] for the SPIDevice that answers an
    [acquire_data] request with one response carrying what the method
    returned.  A cycle without poison pill whose acquisition succeeds puts
    exactly that Reading, once and unflagged, at the end of a response
    queue that is not full, then sleeps 50 ms times the number of
    connected devices, and goes on. *)
Theorem cycle_publishes_reading (fuel : nat) (dispatch : Device (SPIDevice H))
    (w w1 : Worker (SPIDevice H)) (r : Reading.t) (self2 : SPIDevice H)
    (n : Z) :
  (∀ self d self',
     acquire_data fuel self = (Returned d, self') →
     @handle_requests _ dispatch
       [{| cmd := "acquire_data"; args := [] |}] self
     = (Returned [Response (respond d)], self')) →
  @apply_commands _ dispatch w = (Returned (), w1) →
  received_poison_pill_command w1 = false →
  acquire_data fuel (connected_device w1) = (Returned (DReading r), self2) →
  full w1 = false →
  as_int (num_connected_devices w1) = Some n → 0 ≤ n →
  @cycle _ dispatch w
  = (Returned Continue,
     set_naps (naps w1 ++ [50 * n])
       (set_response_queue (response_queue w1 ++ [respond (DReading r)])
          (set_connected_device self2 w1))).
Proof.
  intros Hanswers Happly Hpill Hacq Hfull Hn Hpos.
  destruct (acquire_data_reading_no_failure fuel _ r self2 Hacq)
    as [Hfail [spectra Hspec]].
  unfold cycle. rewrite bind_run, Happly, bind_run. unfold get at 1.
  rewrite Hpill, bind_run, try_except_run, bind_run.
  unfold on_device. rewrite (Hanswers _ _ _ Hacq).
  cbn [mret M_ret]. unfold relay.
  cbn [keep_alive respond error_msg data].
  rewrite bool_decide_eq_false_2 by (by intros []).
  rewrite Hfail, Hspec, bind_run, try_except_run.
  unfold put_nowait. rewrite bind_run. unfold get at 1.
  cbn [full response_maxsize response_queue set_connected_device] in *.
  unfold full in Hfull. cbn beta iota. unfold full.
  cbn [response_maxsize response_queue set_connected_device].
  rewrite Hfull. cbn [modify]. rewrite bind_run.
  unfold poll_sleep. rewrite bind_run. unfold get at 1. cbn beta iota.
  cbn [num_connected_devices set_response_queue set_connected_device].
  rewrite Hn. rewrite bool_decide_eq_false_2 by lia. reflexivity.
Qed.

(** X22: under the same [handle_requests], a cycle without poison pill on
    a session whose disconnect flag is set does not touch the bus: it puts
    one response with data [False] and the poison-pill flag at the end of
    a response queue that is not full, sleeps, and goes on - the loop is
    not left. *)
Theorem cycle_disconnected_sends_poison_pill (fuel : nat)
    (dispatch : Device (SPIDevice H)) (w w1 : Worker (SPIDevice H)) (n : Z) :
  (∀ self d self',
     acquire_data fuel self = (Returned d, self') →
     @handle_requests _ dispatch
       [{| cmd := "acquire_data"; args := [] |}] self
     = (Returned [Response (respond d)], self')) →
  @apply_commands _ dispatch w = (Returned (), w1) →
  received_poison_pill_command w1 = false →
  disconnect (connected_device w1) = true →
  full w1 = false →
  as_int (num_connected_devices w1) = Some n → 0 ≤ n →
  @cycle _ dispatch w
  = (Returned Continue,
     set_naps (naps w1 ++ [50 * n])
       (set_response_queue
          (response_queue w1
           ++ [{| data := DBool false; error_msg := EmptyString;
                  keep_alive := false; poison_pill := true |}])
          (set_connected_device (connected_device w1) w1))).
Proof.
  intros Hanswers Happly Hpill Hd Hfull Hn Hpos.
  assert (acquire_data fuel (connected_device w1)
          = (Returned (DBool false), connected_device w1)) as Hacq.
  { unfold acquire_data. rewrite bind_run. unfold get. by rewrite Hd. }
  unfold cycle. rewrite bind_run, Happly, bind_run. unfold get at 1.
  rewrite Hpill, bind_run, try_except_run, bind_run.
  unfold on_device. rewrite (Hanswers _ _ _ Hacq).
  cbn [mret M_ret]. unfold relay.
  cbn [keep_alive respond error_msg data].
  rewrite bool_decide_eq_false_2 by (by intros []).
  rewrite bind_run. unfold put. rewrite bind_run. unfold get at 1.
  cbn beta iota. unfold full in *.
  cbn [response_maxsize response_queue set_connected_device].
  rewrite Hfull. cbn [modify].
  unfold poll_sleep. rewrite bind_run. unfold get at 1. cbn beta iota.
  rewrite bind_run. cbn beta iota.
  cbn [num_connected_devices set_response_queue set_connected_device].
  rewrite Hn. rewrite bool_decide_eq_false_2 by lia. reflexivity.
Qed.

(** The dispatcher of the bench answers an [acquire_data] request in this
    way. *)
Lemma Forwarder_answers fuel (self : SPIDevice H) d self' :
  acquire_data fuel self = (Returned d, self') →
  @handle_requests _ (Forwarder fuel)
    [{| cmd := "acquire_data"; args := [] |}] self
  = (Returned [Response (respond d)], self').
Proof.
  intros Hacq. cbn [handle_requests Forwarder Forwarder_requests].
  rewrite bind_run. cbn [cmd]. rewrite decide_True by done.
  by rewrite Hacq.
Qed.

End Publishing.

(** ** The start of run and the way out of its loop *)

(** X23: the choice of the device class never fails; the flags are taken
    in the order ocean, andor, ble, spi - a set [is_ble] wins over a set
    [is_spi] - and WasatchDevice is chosen when no flag is set. *)
Theorem connecting_class_priority (is_ocean is_andor is_spi is_ble : bool) :
  connecting_class is_ocean is_andor is_spi is_ble
  = Returned (if is_ocean then class_OceanDevice
              else if is_andor then class_AndorDevice
              else if is_ble then class_BLEDevice
              else if is_spi then class_SPIDevice
              else class_WasatchDevice).
Proof. by destruct is_ocean, is_andor, is_spi, is_ble. Qed.

Section RunProperties.
Context {D : Type} `{!Device D} `{!Factory D}.

Lemma settings_put_nowait_inv m a st st' :
  settings_put_nowait m st = (Returned a, st') →
  settings_queue st' = settings_queue st ++ [m]
  ∧ settings_maxsize st' = settings_maxsize st.
Proof.
  unfold settings_put_nowait. destruct (settings_full st); [done|].
  by intros [= _ <-].
Qed.

Lemma settings_put_inv m a st st' :
  settings_put m st = (Returned a, st') →
  settings_queue st' = settings_queue st ++ [m]
  ∧ settings_maxsize st' = settings_maxsize st.
Proof.
  unfold settings_put. destruct (settings_full st); [done|].
  by intros [= _ <-].
Qed.

(** X24: whenever the start of [run] returns, it has put exactly one
    message on the settings queue, at its end; that message hands over the
    settings exactly when the thread goes on to its loop, and is [None] or
    a response - the device's own or "exception while connecting" - when
    the thread gives up. *)
Theorem startup_one_message (is_ocean is_andor is_spi is_ble : bool)
    (st st' : Startup) (res : startup_result D) :
  startup is_ocean is_andor is_spi is_ble st = (Returned res, st') →
  ∃ m, settings_queue st' = settings_queue st ++ [m]
       ∧ settings_maxsize st' = settings_maxsize st
       ∧ (m = MsgSettings ↔ ∃ d, res = Connected d).
Proof.
  assert (∀ (put : settings_message → M Startup ()) m res0,
            (∀ a st0 st1, put m st0 = (Returned a, st1) →
               settings_queue st1 = settings_queue st0 ++ [m]
               ∧ settings_maxsize st1 = settings_maxsize st0) →
            m ≠ MsgSettings →
            (put m ≫= λ _, mret (GaveUp res0)) st = (Returned res, st') →
            ∃ m, settings_queue st' = settings_queue st ++ [m]
                 ∧ settings_maxsize st' = settings_maxsize st
                 ∧ (m = MsgSettings ↔ ∃ d0, res = Connected d0)) as Hgave.
  { intros put m res0 Hput Hm ([] & st1 & Hrun & [= <- <-])%bind_Returned_inv.
    apply Hput in Hrun as [Hq Hsize]. exists m.
    split; [exact Hq|]. split; [exact Hsize|].
    split; [done | by intros [d0 ?]]. }
  unfold startup.
  destruct (match connecting_class is_ocean is_andor is_spi is_ble with
            | Returned c => instantiate c
            | Raised e => Raised e
            | Spinning => Spinning
            end) as [d|e|]; [| |done].
  - destruct (handle_requests _ d) as [[replies|e|] d']; [| |done].
    + destruct replies as [|[naked|ok] [|]];
        try (by apply Hgave; [apply settings_put_nowait_inv|]); [done|].
      destruct (truthy (data ok));
        [|by apply Hgave; [apply settings_put_nowait_inv|]].
      intros ([] & st1 & Hput & [= <- <-])%bind_Returned_inv.
      apply settings_put_nowait_inv in Hput as [Hq Hsize].
      exists MsgSettings. split; [exact Hq|]. split; [exact Hsize|].
      split; [by eexists | done].
    + by apply Hgave; [apply settings_put_nowait_inv|].
  - by apply Hgave; [apply settings_put_inv|].
Qed.

Lemma relay_Continue reading_response (w w' : Worker D) f :
  relay reading_response w = (Returned f, w') → f = Continue.
Proof.
  unfold relay. destruct (keep_alive reading_response).
  - intros (? & ? & _ & Hrest)%bind_Returned_inv.
    by apply bind_Returned_inv in Hrest as (? & ? & _ & [= <- _]).
  - intros (? & ? & _ & Hrest)%bind_Returned_inv.
    by apply bind_Returned_inv in Hrest as (? & ? & _ & [= <- _]).
Qed.

Lemma cycle_Break (w w' : Worker D) :
  cycle w = (Returned Break, w') → received_poison_pill_command w' = true.
Proof.
  unfold cycle. intros ([] & w1 & _ & Hrest)%bind_Returned_inv.
  apply bind_Returned_inv in Hrest as (w0 & w2 & [= <- <-] & Hrest).
  destruct (received_poison_pill_command w1) eqn:Hpill.
  - by injection Hrest as <-.
  - apply bind_Returned_inv in Hrest as (r & w3 & _ & Hrest).
    destruct r as [[d|r]|]; try done.
    by apply relay_Continue in Hrest.
Qed.

(** The loop is left by a return only through the shutdown flag. *)
Lemma run_loop_Returned_pill (cycles : nat) (w w' : Worker D) :
  run_loop cycles w = (Returned (), w') →
  received_poison_pill_command w' = true.
Proof.
  revert w. induction cycles as [|cycles IH]; intros w; [done|].
  cbn [run_loop]. intros (f & w1 & Hcycle & Hrest)%bind_Returned_inv.
  destruct f.
  - by apply IH in Hrest.
  - injection Hrest as <-. by apply (cycle_Break w).
Qed.

(** X25: [run] returns in two ways only: the thread gave up before its
    loop - then no pass of the loop was made - or it was in its loop and
    received a poison pill.  No reading, failure or exception of a cycle
    makes it return. *)
Theorem run_returns_only_on_pill (cycles : nat)
    (is_ocean is_andor is_spi is_ble : bool) (command_queue0 : list item)
    (response_queue0 : list SpectrometerResponse) (response_maxsize0 : nat)
    (st st' : Startup) (worker : option (Worker D)) :
  run cycles is_ocean is_andor is_spi is_ble
    command_queue0 response_queue0 response_maxsize0 st
  = (Returned (), st', worker) →
  (worker = None
   ∧ ∃ d, startup is_ocean is_andor is_spi is_ble st
          = (Returned (GaveUp d), st'))
  ∨ (∃ w, worker = Some w ∧ received_poison_pill_command w = true).
Proof.
  unfold run.
  destruct (startup is_ocean is_andor is_spi is_ble st)
    as [[[d|d]| |] st1]; [| |done..].
  - destruct (run_loop cycles _) as [o w] eqn:Hloop.
    intros [= -> <- <-]. right. exists w. split; [done|].
    by apply run_loop_Returned_pill in Hloop.
  - intros [= <- <-]. left. split; [done | by eexists].
Qed.

End RunProperties.

(** ** connect on a ready line that stays asserted *)

Section ConnectStuck.
Context {H : Type} `{!Hardware H} `{!EEPROMCodec}.
Local Open Scope Z_scope.
Implicit Type self : SPIDevice H.

(** X27: on a ready line that stays asserted, with two-byte reads that
    succeed, [connect] never gets to its first page: however long it is
    given, it is still draining the bus, has written no frame and has left
    the settings alone. *)
Theorem connect_ready_stuck_high fuel self :
  (0 < MAX_PAGES)%nat →
  (∀ h, ∃ h', ready_value h = (Returned true, h')) →
  (∀ n h, ∃ d h', SPI_readinto n h = (Returned d, h')) →
  ∃ self', connect fuel self = (Spinning, self')
           ∧ frames (trace self') = frames (trace self)
           ∧ settings self' = settings self.
Proof.
  intros Hpages Hready Hread. unfold connect. rewrite bind_run.
  destruct MAX_PAGES as [|pages]; [lia|].
  cbn [seq read_pages]. rewrite bind_run.
  destruct (drain_ready_stuck fuel (bytearray 2) self Hready Hread)
    as (self' & -> & Hframes & Hset).
  by exists self'.
Qed.

End ConnectStuck.

(** ** The further properties at work on the bench *)

Section FurtherBenchRuns.
#[local] Existing Instance Bench_codec.
Local Open Scope Z_scope.

Lemma dedupe_raises_iff_witness :
  let off := Some {| setting := "laser_enabled"; value := VInt 0 |} in
  pill_only_last [off; None]
  ∧ ∃ keep, dedupe [off; None] = (Returned keep, []).
Proof.
  intros off.
  assert (pill_only_last [off; None]) as Hq.
  { intros i. do 2 (destruct i as [|i]; [by simpl|]). by simpl. }
  split; [exact Hq|].
  exact (proj2 (dedupe_raises_iff [off; None]) Hq).
Defined.

Lemma Acquire_handshake_witness :
  let self := fresh_device 1 bench_two_pixels in
  let self' := (Acquire 3 self).2 in
  Acquire 3 self = (Returned (AcqSpectrum [0x1234]), self')
  ∧ ∃ (n : nat) chunks,
      trace self' = trace self ++ [EvTrigger true]
                    ++ replicate n (EvReady false)
                    ++ [EvReady true; EvTrigger false] ++ drained chunks
      ∧ length [0x1234] = length chunks
      ∧ (Forall (λ d, length d = 2%nat) chunks
         → [0x1234] = decode <$> chunks)
      ∧ acquiring self' = false
      ∧ session_kept self self'.
Proof.
  intros self self'.
  assert (Acquire 3 self = (Returned (AcqSpectrum [0x1234]), self')) as Hrun
    by (vm_compute; reflexivity).
  split; [exact Hrun|].
  exact (Acquire_handshake 3 self [0x1234] self' Hrun).
Defined.

Lemma Acquire_pixels_16_bit_witness :
  let self := fresh_device 1 {| steady_ready := [true; true; true; false] |} in
  let self' := (Acquire 5 self).2 in
  (∀ (h : Steady) d h', SPI_readinto 2 h = (Returned d, h') →
                        length d = 2%nat ∧ Forall is_byte d)
  ∧ Acquire 5 self = (Returned (AcqSpectrum [0x1234; 0x1234]), self')
  ∧ Forall (λ pixel, 0 ≤ pixel < 65536) [0x1234; 0x1234].
Proof.
  intros self self'.
  assert (∀ (h : Steady) d h', SPI_readinto 2 h = (Returned d, h') →
                               length d = 2%nat ∧ Forall is_byte d) as Hbus.
  { intros h d h' [= <- _]. split; [reflexivity|].
    apply (bool_decide_unpack _). vm_compute. exact I. }
  assert (Acquire 5 self = (Returned (AcqSpectrum [0x1234; 0x1234]), self'))
    as Hrun by (vm_compute; reflexivity).
  split; [exact Hbus|]. split; [exact Hrun|].
  exact (Acquire_pixels_16_bit 5 self [0x1234; 0x1234] self' Hbus Hrun).
Defined.

Lemma Acquire_fault_leaves_acquiring_witness :
  let self := fresh_device 1 bench_usb_fault in
  let self' := (Acquire 1 self).2 in
  Acquire 1 self = (Raised USBError, self')
  ∧ acquiring self' = true.
Proof.
  intros self self'.
  assert (Acquire 1 self = (Raised USBError, self')) as Hrun
    by (vm_compute; reflexivity).
  split; [exact Hrun|].
  apply (Acquire_fault_leaves_acquiring 1 self (Raised USBError) self');
    [reflexivity | exact Hrun | discriminate].
Defined.

Lemma set_integration_time_ms_spins_witness :
  let self := set_acquiring true (fresh_device 1 bench_idle) in
  acquiring self = true
  ∧ set_integration_time_ms 3 (VInt 5) self
    = (Spinning, set_trace [EvSleep 10; EvSleep 10; EvSleep 10] self).
Proof.
  intros self. split; [reflexivity|].
  exact (set_integration_time_ms_spins 3 (VInt 5) self eq_refl).
Defined.

Lemma change_setting_integration_time_witness :
  let self := fresh_device 1 bench_idle in
  change_setting 1 "integration_time_ms" (VInt 300) self
  = (Returned true,
     set_settings
       (Settings.set_state
          (State.set_integration_time_ms (VInt 300)
             (Settings.state (settings self)))
          (settings self))
       (set_trace
          [EvWrite [0x3C; 0x00; 0x03; 0x91; 0x2C; 0x01; 0xFF; 0x3E];
           EvSleep 10] self))
  ∧ ∃ low high,
      register_frame 0x11 300 = [0x3C; 0x00; 0x03; 0x91; low; high; 0xFF; 0x3E]
      ∧ is_byte low ∧ is_byte high ∧ low + 256 * high = 300.
Proof.
  intros self.
  apply (change_setting_integration_time 1 (VInt 300) 300 self bench_idle);
    [reflexivity | reflexivity | lia | reflexivity | lia | reflexivity].
Defined.

Lemma change_setting_integration_time_rejected_witness :
  let self := fresh_device 1 bench_idle in
  change_setting 1 "integration_time_ms" (VStr "300") self
  = (Raised TypeError, self)
  ∧ change_setting 1 "integration_time_ms" (VInt 70000) self
    = (Raised ValueError, self).
Proof.
  intros self. split.
  - apply (change_setting_integration_time_rejected 1 (VStr "300") self);
      [reflexivity | reflexivity | lia | reflexivity].
  - apply (proj2 (change_setting_integration_time_rejected
                    1 (VInt 70000) self eq_refl eq_refl (le_n 1)) 70000);
      [reflexivity | lia].
Defined.

Lemma set_integration_time_ms_failure_keeps_settings_witness :
  let self := fresh_device 1 bench_idle in
  set_integration_time_ms 1 (VInt 70000) self = (Raised ValueError, self)
  ∧ session_kept self self.
Proof.
  intros self.
  assert (set_integration_time_ms 1 (VInt 70000) self
          = (Raised ValueError, self)) as Hrun by (vm_compute; reflexivity).
  split; [exact Hrun|].
  apply (set_integration_time_ms_failure_keeps_settings
           1 (VInt 70000) self (Raised ValueError) self);
    [exact Hrun | discriminate].
Defined.

Lemma write_eeprom_frames_witness :
  let self := device_with_buffers 8 bench_idle in
  let e := Settings.eeprom (settings self) in
  ∃ self', write_eeprom self = (Returned true, self')
           ∧ Settings.eeprom (settings self') = e
           ∧ frames (trace self')
             = frames (trace self)
               ++ concat (page_write_frames (EEPROM.write_buffers e)
                          <$> seq 0 MAX_PAGES).
Proof.
  intros self e.
  apply (write_eeprom_frames self e).
  - intros frame h. by exists h.
  - reflexivity.
  - intros page Hpage. change MAX_PAGES with 8%nat in Hpage.
    do 8 (destruct page as [|page];
          [eexists; split; [reflexivity|];
           split; [simpl; lia|];
           apply (bool_decide_unpack _); vm_compute; exact I|]).
    lia.
Defined.

Lemma write_eeprom_missing_buffer_witness :
  let self := device_with_buffers 3 bench_idle in
  let e := Settings.eeprom (settings self) in
  length (EEPROM.write_buffers e) = 3%nat
  ∧ ∃ self', write_eeprom self = (Raised IndexError, self')
             ∧ frames (trace self')
               = frames (trace self)
                 ++ concat (page_write_frames (EEPROM.write_buffers e)
                            <$> seq 0 3).
Proof.
  intros self e. split; [reflexivity|].
  apply (write_eeprom_missing_buffer self e 3).
  - intros frame h. by exists h.
  - reflexivity.
  - reflexivity.
  - change MAX_PAGES with 8%nat. lia.
  - apply (bool_decide_unpack _). vm_compute. exact I.
Defined.

Lemma acquire_times_session_counts_witness :
  let self := fresh_device 1 bench_two_pixels in
  let readings := [bench_reading 0x1234 1 0; bench_reading 0x0001 2 0] in
  let self' := (acquire_times 3 2 self).2 in
  acquire_times 3 2 self = (Returned (DReading <$> readings), self')
  ∧ Reading.session_count <$> readings
    = (λ i, session_reading_count self + Z.of_nat i) <$> seq 1 2
  ∧ session_reading_count self' = session_reading_count self + Z.of_nat 2.
Proof.
  intros self readings self'.
  assert (acquire_times 3 2 self = (Returned (DReading <$> readings), self'))
    as Hrun by (vm_compute; reflexivity).
  split; [exact Hrun|].
  exact (acquire_times_session_counts 3 2 self readings self' Hrun).
Defined.

Lemma acquire_times_averaging_off_witness :
  let self := fresh_device 1 bench_two_pixels in
  let readings := [bench_reading 0x1234 1 0; bench_reading 0x0001 2 0] in
  let self' := (acquire_times 3 2 self).2 in
  acquire_times 3 2 self = (Returned (DReading <$> readings), self')
  ∧ summed_spectra self' = None
  ∧ sum_count self' = 0
  ∧ Forall (λ r, Reading.sum_count r = 0) readings.
Proof.
  intros self readings self'.
  assert (acquire_times 3 2 self = (Returned (DReading <$> readings), self'))
    as Hrun by (vm_compute; reflexivity).
  split; [exact Hrun|].
  apply (acquire_times_averaging_off 3 2 self readings self');
    [simpl; lia | exact Hrun].
Defined.

Lemma accumulator_never_resets_witness :
  let self := fresh_device 2 bench_three_pixels in
  let readings :=
    [bench_reading 1 1 1; bench_reading 2 2 2; bench_reading 3 3 3] in
  let self' := (acquire_times 3 3 self).2 in
  acquire_times 3 3 self = (Returned (DReading <$> readings), self')
  ∧ sum_count self' = 3
  ∧ summed_spectra self' = Some (elementwise_sum 1 [[1]; [2]; [3]]).
Proof.
  intros self readings self'.
  assert (acquire_times 3 3 self = (Returned (DReading <$> readings), self'))
    as Hrun by (vm_compute; reflexivity).
  split; [exact Hrun|].
  apply (accumulator_never_resets 3 1 3 self readings self');
    [simpl; lia | reflexivity | lia | exact Hrun | by repeat constructor].
Defined.

Lemma acquire_data_short_spectrum_witness :
  let self :=
    set_sum_count 1
      (set_summed_spectra (Some [10; 20])
         (fresh_device 2 bench_two_pixels)) in
  let self1 := (Acquire 3 self).2 in
  Acquire 3 self = (Returned (AcqSpectrum [0x1234]), self1)
  ∧ acquire_data 3 self
    = (Raised IndexError, set_summed_spectra (Some [0x123E; 20]) self1)
  ∧ sum_count self1 = 1
  ∧ session_reading_count self1 = 0.
Proof.
  intros self self1.
  assert (Acquire 3 self = (Returned (AcqSpectrum [0x1234]), self1)) as Hrun
    by (vm_compute; reflexivity).
  split; [exact Hrun|].
  apply (acquire_data_short_spectrum 3 self self1 [0x1234] [10; 20]);
    [reflexivity | simpl; lia | discriminate | reflexivity | exact Hrun
    | simpl; lia].
Defined.

Lemma connect_failure_keeps_state_witness :
  let self := fresh_device 1 bench_usb_fault in
  let self' := (connect 1 self).2 in
  connect 1 self = (Raised USBError, self')
  ∧ Settings.state (settings self') = Settings.state (settings self)
  ∧ summed_spectra self' = summed_spectra self
  ∧ sum_count self' = sum_count self
  ∧ session_reading_count self' = session_reading_count self
  ∧ failure_count self' = failure_count self.
Proof.
  intros self self'.
  assert (connect 1 self = (Raised USBError, self')) as Hrun
    by (vm_compute; reflexivity).
  split; [exact Hrun|].
  apply (connect_failure_keeps_state 1 self (Raised USBError) self');
    [exact Hrun | discriminate].
Defined.

Lemma cycle_publishes_reading_witness :
  let w := bench_worker (fresh_device 1 bench_two_pixels) in
  let r := bench_reading 0x1234 1 0 in
  let self2 := (acquire_data 3 (connected_device w)).2 in
  acquire_data 3 (connected_device w) = (Returned (DReading r), self2)
  ∧ @cycle _ (Forwarder 3) w
    = (Returned Continue,
       set_naps [50]
         (set_response_queue [respond (DReading r)]
            (set_connected_device self2 w))).
Proof.
  intros w r self2.
  assert (acquire_data 3 (connected_device w) = (Returned (DReading r), self2))
    as Hacq by (vm_compute; reflexivity).
  split; [exact Hacq|].
  exact (cycle_publishes_reading 3 (Forwarder 3) w w r self2 1
           (Forwarder_answers 3) eq_refl eq_refl Hacq eq_refl eq_refl
           (Z.le_0_1)).
Defined.

Lemma cycle_disconnected_sends_poison_pill_witness :
  let w := bench_worker (set_disconnect true (fresh_device 1 bench_idle)) in
  disconnect (connected_device w) = true
  ∧ @cycle _ (Forwarder 3) w
    = (Returned Continue,
       set_naps [50]
         (set_response_queue
            [{| data := DBool false; error_msg := EmptyString;
                keep_alive := false; poison_pill := true |}]
            w)).
Proof.
  intros w. split; [reflexivity|].
  exact (cycle_disconnected_sends_poison_pill 3 (Forwarder 3) w w 1
           (Forwarder_answers 3) eq_refl eq_refl eq_refl eq_refl eq_refl
           (Z.le_0_1)).
Defined.

Lemma startup_one_message_witness :
  let connect_request := {| cmd := "connect"; args := [] |} in
  let st' := {| settings_queue := [MsgSettings]; settings_maxsize := 0 |} in
  @startup _ Recorder Recorder_factory false false true false bench_startup
  = (Returned (Connected [connect_request]), st')
  ∧ ∃ m, settings_queue st' = settings_queue bench_startup ++ [m]
         ∧ settings_maxsize st' = settings_maxsize bench_startup
         ∧ (m = MsgSettings
            ↔ ∃ d, Connected [connect_request] = Connected d).
Proof.
  intros connect_request st'. split; [reflexivity|].
  exact (@startup_one_message _ Recorder Recorder_factory
           false false true false bench_startup st'
           (Connected [connect_request]) eq_refl).
Defined.

Lemma run_returns_only_on_pill_witness :
  let st' := {| settings_queue := [MsgSettings]; settings_maxsize := 0 |} in
  let result :=
    @run _ Recorder Recorder_factory 1 false false true false
      [Some {| setting := "laser_enabled"; value := VBool false |}; None]
      [] 0 bench_startup in
  result = (Returned (), st', result.2)
  ∧ ((result.2 = None
      ∧ ∃ d, @startup _ Recorder Recorder_factory false false true false
               bench_startup
             = (Returned (GaveUp d), st'))
     ∨ (∃ w, result.2 = Some w ∧ received_poison_pill_command w = true)).
Proof.
  intros st' result.
  assert (result = (Returned (), st', result.2)) as Hrun
    by (vm_compute; reflexivity).
  split; [exact Hrun|].
  exact (@run_returns_only_on_pill _ Recorder Recorder_factory
           1 false false true false _ [] 0%nat bench_startup st' result.2
           Hrun).
Defined.

Lemma connect_returns_when_quiet_witness :
  ∃ self', connect 1 (fresh_device 1 (@stuck false)) = (Returned true, self').
Proof.
  apply (connect_returns_when_quiet 1 (fresh_device 1 (@stuck false)));
    [lia | by intros h; exists h | by intros frame h; exists h
    | by intros command n h; eexists _, h | by intros pages e; eexists].
Defined.

Lemma connect_ready_stuck_high_witness :
  let self := fresh_device 1 (@stuck true) in
  ∃ self', connect 1000 self = (Spinning, self')
           ∧ frames (trace self') = frames (trace self)
           ∧ settings self' = settings self.
Proof.
  intros self.
  apply (connect_ready_stuck_high 1000 self);
    [change MAX_PAGES with 8%nat; lia | by intros h; exists h
    | by intros n h; eexists _, h].
Defined.

End FurtherBenchRuns.

Section FailingCodecRuns.
#[local] Existing Instance Failing_codec.

Lemma write_eeprom_render_failure_witness :
  let self := fresh_device 1 bench_idle in
  let self' := set_trace [EvGenerateWriteBuffers] self in
  write_eeprom self = (Returned false, self')
  ∧ frames (trace self') = frames (trace self)
  ∧ change_setting 1 "write_eeprom" VNone self = (Returned true, self')
  ∧ change_setting 1 "replace_eeprom" VNone self = (Returned true, self').
Proof.
  intros self self'.
  exact (write_eeprom_render_failure 1 VNone self OtherError
           (Settings.eeprom (settings self)) eq_refl eq_refl).
Defined.

End FailingCodecRuns.
